(** * Ensemble CSV page: sweep generation, per-case evaluation, aggregation

    A shallow embedding of [pages/01_Ensemble_CSV.py] and of
    [app_components/utils.py] (function [validate_case_inputs]).

    Modelling conventions.
    - A Python [dict] with string keys is a [gmap string pyval].
    - A Python [int] is a [Z].  A finite Python [float] is the rational
      number it denotes ([Q]); comparing finite floats is comparing these
      rationals, and float [==] is [Qeq].  NaN and the infinities are
      outside the model.
    - A Python [str] is a [string]; [str.lower] acts on the ASCII letters.
    - Code that may raise returns a [result]; the exceptions are the
      subclasses of [Exception] the page can meet.
    - The module-level [lru_cache] and the calls made to the external
      collaborators are threaded as an explicit [world]. *)

From Stdlib Require Import ZArith QArith String Ascii List Lia Lqa Permutation Sorted.
From stdpp Require Import gmap strings list fin_maps sorting pretty.

Local Open Scope string_scope.
Local Open Scope Z_scope.

(** ** Python values and exceptions *)

Inductive pyval :=
  | VInt (z : Z)
  | VFloat (q : Q)
  | VStr (s : string)
  | VNone.

Inductive pyexn :=
  | ValueError (msg : string)
  | TypeError (msg : string)
  | KeyError (key : string)
  | AttributeError (msg : string)
  | OtherException (msg : string).

Inductive result (A : Type) :=
  | Ok (a : A)
  | Raise (e : pyexn).
Arguments Ok {A} a.
Arguments Raise {A} e.

(** [str(e)]: a [KeyError] prints the repr of its key. *)
Definition exn_str (e : pyexn) : string :=
  match e with
  | ValueError m | TypeError m | AttributeError m | OtherException m => m
  | KeyError k => "'" +:+ k +:+ "'"
  end.

Definition type_name (v : pyval) : string :=
  match v with
  | VInt _ => "int"
  | VFloat _ => "float"
  | VStr _ => "str"
  | VNone => "NoneType"
  end.

(** [v <= 0] and [v < 0] against the integer literal [0]. *)
Definition py_le0 (v : pyval) : result bool :=
  match v with
  | VInt z => Ok (z <=? 0)
  | VFloat q => Ok (Qle_bool q 0)
  | _ => Raise (TypeError ("'<=' not supported between instances of '"
                           +:+ type_name v +:+ "' and 'int'"))
  end.

Definition py_lt0 (v : pyval) : result bool :=
  match v with
  | VInt z => Ok (z <? 0)
  | VFloat q => Ok (negb (Qle_bool 0 q))
  | _ => Raise (TypeError ("'<' not supported between instances of '"
                           +:+ type_name v +:+ "' and 'int'"))
  end.

(** [d.get(k, 0)] *)
Definition dict_get0 (d : gmap string pyval) (k : string) : pyval :=
  default (VInt 0) (d !! k).

(** [d[k]] *)
Definition dict_item {V} (d : gmap string V) (k : string) : result V :=
  match d !! k with
  | Some v => Ok v
  | None => Raise (KeyError k)
  end.

(** ** [app_components/utils.py] *)

Definition validate_case_inputs (case : gmap string pyval) : result string :=
  match py_le0 (dict_get0 case "datacenter_load_mw") with
  | Raise e => Raise e
  | Ok true => Ok "invalid: datacenter_load_mw <= 0"
  | Ok false =>
  match py_lt0 (dict_get0 case "solar_pv_capacity_mw") with
  | Raise e => Raise e
  | Ok true => Ok "invalid: solar_pv_capacity_mw < 0"
  | Ok false =>
  match py_lt0 (dict_get0 case "bess_max_power_mw") with
  | Raise e => Raise e
  | Ok true => Ok "invalid: bess_max_power_mw < 0"
  | Ok false =>
  match py_lt0 (dict_get0 case "generator_capacity_mw") with
  | Raise e => Raise e
  | Ok true => Ok "invalid: generator_capacity_mw < 0"
  | Ok false => Ok ""
  end end end end.


(** ** String helpers: [str.lower], [in], [str.replace(' ', '')], [str(v)] *)

Definition ascii_lower (c : ascii) : ascii :=
  let n := nat_of_ascii c in
  if ((65 <=? n) && (n <=? 90))%nat then ascii_of_nat (n + 32) else c.

Fixpoint lower (s : string) : string :=
  match s with
  | EmptyString => EmptyString
  | String c r => String (ascii_lower c) (lower r)
  end.

(** [needle in hay] *)
Fixpoint contains (needle hay : string) : bool :=
  String.prefix needle hay ||
  match hay with
  | EmptyString => false
  | String _ r => contains needle r
  end.

Fixpoint remove_spaces (s : string) : string :=
  match s with
  | EmptyString => EmptyString
  | String c r =>
      if Ascii.eqb c " "%char then remove_spaces r else String c (remove_spaces r)
  end.

(** Python [==] on values: numbers compare by value across [int] and
    [float]; values of unrelated types are unequal. *)
Definition py_eqb (a b : pyval) : bool :=
  match a, b with
  | VInt x, VInt y => (x =? y)
  | VInt x, VFloat q => Qeq_bool (inject_Z x) q
  | VFloat q, VInt y => Qeq_bool q (inject_Z y)
  | VFloat p, VFloat q => Qeq_bool p q
  | VStr s, VStr t => String.eqb s t
  | VNone, VNone => true
  | _, _ => false
  end.

(** ** External collaborators

    [core.powerflow_model], [core.datacenter] and the float formatter are
    not part of the page: they are an interface.  Each call either returns
    or raises.  Following their contracts, [calculate_lcoe] yields the
    levelized cost (first component of the tuple it returns) and the energy
    mix maps names to floats. *)

Class Collaborators := {
  SolarDF : Type;
  Annual : Type;
  DataCenter : Type;
  CostInputs : Type;
  get_solar_ac_dataframe : pyval -> pyval -> result SolarDF;
  simulate_system :
    pyval -> pyval -> SolarDF -> pyval -> pyval -> pyval -> pyval ->
    result (gmap string Annual);
  DataCenter_init :
    pyval -> pyval -> pyval -> pyval -> CostInputs -> Annual -> result DataCenter;
  calculate_lcoe : DataCenter -> result Q;
  calculate_energy_mix : Annual -> result (gmap string Q);
  float_repr : Q -> string
}.

(** [str(v)], as an f-string field prints it. *)
Definition py_str `{Collaborators} (v : pyval) : string :=
  match v with
  | VInt z => pretty z
  | VFloat q => float_repr q
  | VStr s => s
  | VNone => "None"
  end.

(** [v.replace(' ', '')] *)
Definition py_replace_spaces (v : pyval) : result string :=
  match v with
  | VStr s => Ok (remove_spaces s)
  | _ => Raise (AttributeError ("'" +:+ type_name v
                                +:+ "' object has no attribute 'replace'"))
  end.

(** ** The world: the [lru_cache] store and the observable calls *)

Inductive event :=
  | EvFetch (lat lon : pyval)            (* get_solar_ac_dataframe invoked *)
  | EvRunCase (case : gmap string pyval) (* a worker starts run_case *).

(** Most recently used entry first. *)
Record world `{Collaborators} := World {
  lru : list (pyval * pyval * SolarDF);
  events : list event
}.

Definition M `{Collaborators} (A : Type) : Type := world -> result A * world.

Definition ret `{Collaborators} {A} (a : A) : M A := fun w => (Ok a, w).

Definition bind `{Collaborators} {A B} (m : M A) (k : A -> M B) : M B :=
  fun w =>
    match m w with
    | (Ok a, w') => k a w'
    | (Raise e, w') => (Raise e, w')
    end.

Definition lift `{Collaborators} {A} (r : result A) : M A := fun w => (r, w).

(** [try: body except Exception as e: handler(e)] *)
Definition try_except `{Collaborators} {A} (body : M A) (handler : pyexn -> M A) : M A :=
  fun w =>
    match body w with
    | (Ok a, w') => (Ok a, w')
    | (Raise e, w') => handler e w'
    end.

Notation "'let*' x ':=' m 'in' k" := (bind m (fun x => k))
  (at level 10, x name, m at level 100, k at level 200).

(** *** [solar_ac_cached]: [lru_cache(maxsize=64)] around the fetch *)

Definition lru_maxsize : nat := 64.

Definition key_eqb (lat lon : pyval) {V} (entry : pyval * pyval * V) : bool :=
  py_eqb lat entry.1.1 && py_eqb lon entry.1.2.

(** Find the entry of a key and take it out of the list. *)
Fixpoint lru_take {V} (lat lon : pyval) (l : list (pyval * pyval * V))
  : option ((pyval * pyval * V) * list (pyval * pyval * V)) :=
  match l with
  | [] => None
  | entry :: rest =>
      if key_eqb lat lon entry then Some (entry, rest)
      else match lru_take lat lon rest with
           | Some (found, rest') => Some (found, entry :: rest')
           | None => None
           end
  end.

Definition solar_ac_cached `{Collaborators} (lat_ lon_ : pyval) : M SolarDF :=
  fun w =>
    match lru_take lat_ lon_ (lru w) with
    | Some (entry, rest) =>
        (* hit: the entry becomes the most recently used *)
        (Ok entry.2, World _ (entry :: rest) (events w))
    | None =>
        let evs := (events w ++ [EvFetch lat_ lon_])%list in
        match get_solar_ac_dataframe lat_ lon_ with
        | Raise e => (Raise e, World _ (lru w) evs)
        | Ok df =>
            (* miss: store, dropping the least recently used beyond maxsize *)
            (Ok df, World _ (take lru_maxsize ((lat_, lon_, df) :: lru w)) evs)
        end
    end.

(** ** [run_case] *)

Definition error_row (case : gmap string pyval) (status : string)
  : gmap string pyval :=
  <["status" := VStr status]>
    (<["renewable_percentage" := VNone]>
       (<["lcoe" := VNone]>
          (<["system_spec" := VNone]> case))).

Definition success_row (case : gmap string pyval) (spec : string) (lcoe rp : Q)
  : gmap string pyval :=
  <["status" := VStr "success"]>
    (<["renewable_percentage" := VFloat rp]>
       (<["lcoe" := VFloat lcoe]>
          (<["system_spec" := VStr spec]> case))).

(** The body of the [try] block. *)
Definition run_case_body `{Collaborators} (cost : CostInputs)
    (case : gmap string pyval) : M (gmap string pyval) :=
  let* lat := lift (dict_item case "lat") in
  let* lon := lift (dict_item case "long") in
  let* solar_df := solar_ac_cached lat lon in
  let* lat := lift (dict_item case "lat") in
  let* lon := lift (dict_item case "long") in
  let* solar := lift (dict_item case "solar_pv_capacity_mw") in
  let* bess := lift (dict_item case "bess_max_power_mw") in
  let* gen := lift (dict_item case "generator_capacity_mw") in
  let* load := lift (dict_item case "datacenter_load_mw") in
  let* pf := lift (simulate_system lat lon solar_df solar bess gen load) in
  let* annual := lift (dict_item pf "annual_results") in
  let* gen_type := lift (dict_item case "generator_type") in
  let* dc := lift (DataCenter_init solar bess gen gen_type cost annual) in
  let* lcoe := lift (calculate_lcoe dc) in
  let* mix := lift (calculate_energy_mix annual) in
  let* gt := lift (py_replace_spaces gen_type) in
  let spec := py_str solar +:+ "MW_PV_" +:+ py_str bess +:+ "MW_BESS_"
              +:+ py_str gen +:+ "MW_" +:+ gt in
  let* rp := lift (dict_item mix "renewable_percentage") in
  ret (success_row case spec lcoe rp).

(** The [zero energy] test of the [except ValueError] handler. *)
Definition mentions_zero_energy (msg : string) : bool :=
  let error_msg := lower msg in
  contains "zero" error_msg
  && (contains "energy" error_msg || contains "lifetime" error_msg).

(** Status written by the two [except] clauses. *)
Definition except_status (e : pyexn) : string :=
  match e with
  | ValueError _ =>
      if mentions_zero_energy (exn_str e) then "error: zero energy"
      else "error: " +:+ exn_str e
  | _ => "error: " +:+ exn_str e
  end.

Definition run_case `{Collaborators} (cost : CostInputs)
    (case : gmap string pyval) : M (gmap string pyval) :=
  let* validation_error := lift (validate_case_inputs case) in
  if negb (String.eqb validation_error "") then
    ret (error_row case ("error: " +:+ validation_error))
  else
    try_except (run_case_body cost case)
               (fun e => ret (error_row case (except_status e))).

(** ** The page script *)

(** The query parameters after parsing ([qi] yields an [int], [qf] a
    [float], [qs] a [str]); [cost_inputs] stands for the cost rates and
    finance settings handed to [DataCenter]; [now] is the rendered clock. *)
Record config `{Collaborators} := Config {
  lat : Q;
  lon : Q;
  dc_load : Z;
  gen_type : string;
  solar_start : Z; solar_stop : Z; solar_step : Z;
  bess_start : Z;  bess_stop : Z;  bess_step : Z;
  gen_start : Z;   gen_stop : Z;   gen_step : Z;
  max_conc : Z;
  limit_rows : Z;
  cost_inputs : CostInputs;
  now : string
}.

(** How the script ends: [st.error(msg); st.stop()], an exception nobody
    catches, or the three rendered tables. *)
Inductive outcome :=
  | Stopped (error : string)
  | Uncaught (e : pyexn)
  | Rendered (n_rows : nat)
             (best_row : gmap string pyval)
             (raw_print : list (gmap string pyval))
             (pareto : list (gmap string pyval)).

Definition nl : string := String (ascii_of_nat 10) EmptyString.

(** [sep.join(l)] *)
Fixpoint join (sep : string) (l : list string) : string :=
  match l with
  | [] => ""
  | [x] => x
  | x :: rest => x +:+ sep +:+ join sep rest
  end.

Definition validation_errors `{Collaborators} (cfg : config) : list string :=
  ((if dc_load cfg <=? 0 then ["datacenter_load_mw must be > 0"] else []) ++
   (if solar_step cfg <=? 0 then ["solar_step must be > 0"] else []) ++
   (if bess_step cfg <=? 0 then ["bess_step must be > 0"] else []) ++
   (if gen_step cfg <=? 0 then ["gen_step must be > 0"] else []))%list.

Definition validation_message (errs : list string) : string :=
  "Input validation failed:" +:+ nl +:+ join nl (map (fun e => "- " +:+ e) errs).

Definition empty_sweep_message : string :=
  "Empty sweep - check *_start, *_stop, *_step params".

(** [list(range(start, stop, step))] *)
Definition py_range (start stop step : Z) : result (list Z) :=
  if step =? 0 then Raise (ValueError "range() arg 3 must not be zero")
  else
    let n :=
      if 0 <? step then
        if start <? stop then (stop - start - 1) / step + 1 else 0
      else
        if stop <? start then (start - stop - 1) / (- step) + 1 else 0 in
    Ok (map (fun i => start + Z.of_nat i * step) (seq 0 (Z.to_nat n))).

Definition make_case `{Collaborators} (cfg : config) (s b g : Z)
  : gmap string pyval :=
  <["datacenter_load_mw" := VInt (dc_load cfg)]>
    (<["generator_type" := VStr (gen_type cfg)]>
       (<["generator_capacity_mw" := VInt g]>
          (<["bess_max_power_mw" := VInt b]>
             (<["solar_pv_capacity_mw" := VInt s]>
                (<["long" := VFloat (lon cfg)]>
                   (<["lat" := VFloat (lat cfg)]> ∅)))))).

(** [itertools.product(xs, ys, zs)]: the last argument varies fastest. *)
Definition product3 {A B C} (xs : list A) (ys : list B) (zs : list C)
  : list (A * B * C) :=
  flat_map (fun x => flat_map (fun y => map (fun z => (x, y, z)) zs) ys) xs.

(** Lines 124-158: validation, the three ranges, the list of cases.
    [inl] ends the script. *)
Definition build_cases `{Collaborators} (cfg : config)
  : outcome + list (gmap string pyval) :=
  match validation_errors cfg with
  | _ :: _ => inl (Stopped (validation_message (validation_errors cfg)))
  | [] =>
  match py_range (solar_start cfg) (solar_stop cfg) (solar_step cfg) with
  | Raise e => inl (Uncaught e)
  | Ok solar_vals =>
  match py_range (bess_start cfg) (bess_stop cfg) (bess_step cfg) with
  | Raise e => inl (Uncaught e)
  | Ok bess_vals =>
  match py_range (gen_start cfg) (gen_stop cfg) (gen_step cfg) with
  | Raise e => inl (Uncaught e)
  | Ok gen_vals =>
      if match solar_vals with [] => true | _ => false end
         || match bess_vals with [] => true | _ => false end
         || match gen_vals with [] => true | _ => false end
      then inl (Stopped empty_sweep_message)
      else inr (map (fun '(s, b, g) => make_case cfg s b g)
                    (product3 solar_vals bess_vals gen_vals))
  end end end end.

(** *** The thread pool *)

(** [ThreadPoolExecutor(max_workers=n)] checks its argument. *)
Definition ThreadPoolExecutor (max_workers : Z) : result Z :=
  if max_workers <=? 0 then Raise (ValueError "max_workers must be greater than 0")
  else Ok max_workers.

(** [as_completed] yields every submitted future exactly once, in the
    order the futures finish.  That order is not fixed by the program: it
    is given by [picks], the position, among the futures still pending, of
    the one that finishes next (taken modulo their number; a missing pick
    means the oldest pending one). *)
Fixpoint as_completed_from {A} (fuel : nat) (picks : list nat) (pending : list A)
  : list A :=
  match fuel with
  | O => []
  | S fuel' =>
      let k := (hd O picks mod length pending)%nat in
      match pending !! k with
      | Some fut => fut :: as_completed_from fuel' (tl picks) (delete k pending)
      | None => []
      end
  end.

Definition as_completed {A} (picks : list nat) (futures : list A) : list A :=
  as_completed_from (length futures) picks futures.

(** One worker running one submitted case. *)
Definition worker `{Collaborators} (cost : CostInputs) (case : gmap string pyval)
  : M (gmap string pyval) :=
  fun w => run_case cost case (World _ (lru w) (events w ++ [EvRunCase case])%list).

(** The workers run the cases one after the other in the order they
    finish; each future keeps the value or the exception of its case. *)
Fixpoint run_futures `{Collaborators} (cost : CostInputs)
    (order : list (gmap string pyval)) (w : world)
  : list (result (gmap string pyval)) * world :=
  match order with
  | [] => ([], w)
  | case :: rest =>
      let (r, w1) := worker cost case w in
      let (rs, w2) := run_futures cost rest w1 in
      (r :: rs, w2)
  end.

(** [for fut in ...: results.append(fut.result())]: [fut.result()] raises
    again what the case raised. *)
Fixpoint collect_results {A} (futs : list (result A)) : result (list A) :=
  match futs with
  | [] => Ok []
  | Raise e :: _ => Raise e
  | Ok r :: rest =>
      match collect_results rest with
      | Ok rs => Ok (r :: rs)
      | Raise e => Raise e
      end
  end.

(** Lines 232-237. *)
Definition run_threads `{Collaborators} (cfg : config) (picks : list nat)
    (cases : list (gmap string pyval)) (w : world)
  : (outcome + list (gmap string pyval)) * world :=
  match ThreadPoolExecutor (max_conc cfg) with
  | Raise e => (inl (Uncaught e), w)
  | Ok _ =>
      let (futs, w') := run_futures (cost_inputs cfg) (as_completed picks cases) w in
      match collect_results futs with
      | Raise e => (inl (Uncaught e), w')
      | Ok results => (inr results, w')
      end
  end.

(** *** The raw table and the best row *)

Definition cols : list string :=
  ["timestamp"; "lat"; "long"; "system_spec";
   "solar_pv_capacity_mw"; "bess_max_power_mw"; "generator_capacity_mw";
   "lcoe"; "renewable_percentage"; "status"].

(** A data frame is its rows with their index labels; [pd.DataFrame(results)]
    labels the rows 0, 1, ... in the order of [results]. *)
Definition pd_DataFrame (results : list (gmap string pyval))
  : list (nat * gmap string pyval) :=
  imap (fun i r => (i, r)) results.

(** One row after [raw_df["timestamp"] = now] and the projection on [cols]. *)
Definition with_columns (now_ : string) (row : gmap string pyval)
  : gmap string pyval :=
  filter (fun kv : string * pyval => kv.1 ∈ cols) (<["timestamp" := VStr now_]> row).

Definition raw_table (now_ : string) (results : list (gmap string pyval))
  : list (nat * gmap string pyval) :=
  map (fun ir : nat * gmap string pyval => (ir.1, with_columns now_ ir.2))
      (pd_DataFrame results).

Definition is_success (row : gmap string pyval) : bool :=
  match row !! "status" with
  | Some v => py_eqb v (VStr "success")
  | None => false
  end.

(** The number held by a cell; [None] and a missing cell are NaN. *)
Definition cell_number (row : gmap string pyval) (col : string) : option Q :=
  match row !! col with
  | Some (VFloat q) => Some q
  | Some (VInt z) => Some (inject_Z z)
  | _ => None
  end.

Definition Qlt_bool (a b : Q) : bool := negb (Qle_bool b a).

(** [Series.idxmin()]: the label of the first occurrence of the smallest
    value, NaN cells skipped; [best] is the smallest seen so far. *)
Fixpoint idxmin_from (best : option (nat * Q)) (col : string)
    (df : list (nat * gmap string pyval)) : option (nat * Q) :=
  match df with
  | [] => best
  | (i, row) :: rest =>
      match cell_number row col, best with
      | None, _ => idxmin_from best col rest
      | Some q, None => idxmin_from (Some (i, q)) col rest
      | Some q, Some (bi, bq) =>
          if Qlt_bool q bq then idxmin_from (Some (i, q)) col rest
          else idxmin_from best col rest
      end
  end.

Definition idxmin (col : string) (df : list (nat * gmap string pyval))
  : option nat :=
  fst <$> idxmin_from None col df.

(** [df.loc[[label]]] on a frame with distinct labels. *)
Definition loc (label : nat) (df : list (nat * gmap string pyval))
  : option (gmap string pyval) :=
  snd <$> find (fun ir : nat * gmap string pyval => Nat.eqb ir.1 label) df.

(** ** Pareto frontier

    [core.pareto_frontier] is not part of the page; the definitions of
    this part follow the specification of the frontier. *)

(** Modelled from the spec: a ParetoPoint, one success row with its two
    objective values (the module [core.pareto_frontier] is missing). *)
Record ParetoPoint := {
  point_row : gmap string pyval;
  cost : Q;
  renewable : Q
}.

(** Modelled from the spec: the frontier is computed over the entries with
    status [success] only ([core.pareto_frontier] is missing). *)
Definition pareto_point (row : gmap string pyval) : option ParetoPoint :=
  if is_success row then
    match cell_number row "lcoe", cell_number row "renewable_percentage" with
    | Some c, Some f => Some {| point_row := row; cost := c; renewable := f |}
    | _, _ => None
    end
  else None.

(** Modelled from the spec: [a] dominates [b] when its cost is not higher
    and its renewable fraction not lower, one of the two strictly
    ([core.pareto_frontier] is missing). *)
Definition dominates (a b : ParetoPoint) : Prop :=
  (cost a <= cost b)%Q /\ (renewable b <= renewable a)%Q /\
  ((cost a < cost b)%Q \/ (renewable b < renewable a)%Q).

(** Modelled from the spec: the sort order of [core.pareto_frontier]
    (missing), cost ascending, ties by descending renewable fraction. *)
Definition before (a b : ParetoPoint) : bool :=
  Qlt_bool (cost a) (cost b)
  || (Qeq_bool (cost a) (cost b) && Qle_bool (renewable b) (renewable a)).

(** Modelled from the spec: the sort of [core.pareto_frontier] (missing),
    here by insertion. *)
Fixpoint insert_sorted (p : ParetoPoint) (l : list ParetoPoint) : list ParetoPoint :=
  match l with
  | [] => [p]
  | q :: rest => if before p q then p :: l else q :: insert_sorted p rest
  end.

(** Modelled from the spec: successes sorted by cost ascending
    ([core.pareto_frontier] is missing). *)
Fixpoint sort_points (l : list ParetoPoint) : list ParetoPoint :=
  match l with
  | [] => []
  | p :: rest => insert_sorted p (sort_points rest)
  end.

(** Modelled from the spec: the sweep of [core.pareto_frontier] (missing).
    [running] is the largest renewable fraction seen so far, [None] before
    the first point; a point is kept iff it is the first or its renewable
    fraction is strictly greater than [running]. *)
Fixpoint skyline (running : option Q) (l : list ParetoPoint) : list ParetoPoint :=
  match l with
  | [] => []
  | p :: rest =>
      match running with
      | None => p :: skyline (Some (renewable p)) rest
      | Some m =>
          if Qlt_bool m (renewable p) then p :: skyline (Some (renewable p)) rest
          else skyline running rest
      end
  end.

(** Modelled from the spec: the frontier of [core.pareto_frontier]
    (missing), the sweep of the sorted success points. *)
Definition frontier (results : list (gmap string pyval)) : list ParetoPoint :=
  skyline None (sort_points (omap pareto_point results)).

(** Modelled from the spec: [core.pareto_frontier.process_ensemble_data] is
    not part of the page.  Over the success entries only, with the
    objectives cost (minimize) and renewable fraction (maximize): sort by
    cost ascending, ties by descending renewable fraction; sweep keeping
    the running maximum renewable fraction; a point is a frontier member
    iff its renewable fraction is strictly greater than the running maximum
    when it is visited, or it is the first point; the frontier is returned
    by ascending cost. *)
Definition process_ensemble_data (results : list (gmap string pyval))
  : list (gmap string pyval) :=
  map point_row (frontier results).

(** *** Lines 239-272 *)

Definition report `{Collaborators} (cfg : config)
    (results : list (gmap string pyval)) : outcome :=
  let raw_df := raw_table (now cfg) results in
  let succ := List.filter (fun ir : nat * gmap string pyval => is_success ir.2) raw_df in
  match succ with
  | [] => Stopped "All cases failed"
  | _ :: _ =>
      match idxmin "lcoe" succ with
      | None => Uncaught (ValueError "attempt to get argmin of an empty sequence")
      | Some best_idx =>
          match loc best_idx succ with
          | None => Uncaught (KeyError (pretty best_idx))
          | Some best_row =>
              let raw_print_df :=
                if 0 <? limit_rows cfg
                then take (Z.to_nat (limit_rows cfg)) raw_df else raw_df in
              Rendered (length raw_df) best_row (map snd raw_print_df)
                       (process_ensemble_data results)
          end
      end
  end.

Definition script `{Collaborators} (cfg : config) (picks : list nat) (w : world)
  : outcome * world :=
  match build_cases cfg with
  | inl o => (o, w)
  | inr cases =>
      match run_threads cfg picks cases w with
      | (inl o, w') => (o, w')
      | (inr results, w') => (report cfg results, w')
      end
  end.

(** ** Notions used to state the properties *)

(** The four checks of [validate_case_inputs] as the ordered table the
    specification describes: field, test against 0, message. *)
Definition case_checks : list (string * (pyval -> result bool) * string) :=
  [("datacenter_load_mw", py_le0, "invalid: datacenter_load_mw <= 0");
   ("solar_pv_capacity_mw", py_lt0, "invalid: solar_pv_capacity_mw < 0");
   ("bess_max_power_mw", py_lt0, "invalid: bess_max_power_mw < 0");
   ("generator_capacity_mw", py_lt0, "invalid: generator_capacity_mw < 0")].

(** Message of the first violated check of a table, a missing field
    counting as 0; the empty string when no check is violated. *)
Fixpoint first_violated (case : gmap string pyval)
    (checks : list (string * (pyval -> result bool) * string)) : result string :=
  match checks with
  | [] => Ok ""
  | (field, test, message) :: rest =>
      match test (default (VInt 0) (case !! field)) with
      | Raise e => Raise e
      | Ok true => Ok message
      | Ok false => first_violated case rest
      end
  end.

(** A field of a row holds a value other than [None]. *)
Definition present (row : gmap string pyval) (field : string) : Prop :=
  exists v, row !! field = Some v /\ v <> VNone.


(** [row] is what a worker returns for [case], from some world. *)
Definition evaluates_to `{Collaborators} (cost : CostInputs)
    (case row : gmap string pyval) : Prop :=
  exists w1 w2, worker cost case w1 = (Ok row, w2).

(** Index labels grow along a frame. *)
Definition label_lt (a b : nat * gmap string pyval) : Prop := (a.1 < b.1)%nat.

(** [best] is the rendered form of the first row of [table] that is a
    success of least levelized cost: no success costs less, and every
    success of equal cost comes later in [table]. *)
Definition selects_first_minimum (table : list (gmap string pyval))
    (now_ : string) (best : gmap string pyval) : Prop :=
  exists i row c,
    table !! i = Some row /\ best = with_columns now_ row /\
    is_success row = true /\ cell_number row "lcoe" = Some c /\
    forall j row' c',
      table !! j = Some row' -> is_success row' = true ->
      cell_number row' "lcoe" = Some c' ->
      (c <= c')%Q /\ (c' == c -> i <= j)%nat.

(** Number of calls made to [get_solar_ac_dataframe]. *)
Definition fetch_count (evs : list event) : nat :=
  length (List.filter (fun ev => match ev with EvFetch _ _ => true | _ => false end) evs).

(** The cache of [w] holds [v] for the key [(lat_, lon_)]. *)
Definition cached `{Collaborators} (lat_ lon_ : pyval) (w : world) (v : SolarDF) : Prop :=
  exists entry rest, lru_take lat_ lon_ (lru w) = Some (entry, rest) /\ entry.2 = v.



(** The sort order as a relation, and the strict order of a staircase. *)
Definition before_rel (a b : ParetoPoint) : Prop := before a b = true.

Definition below (a b : ParetoPoint) : Prop :=
  (cost a < cost b)%Q /\ (renewable a < renewable b)%Q.


(** ** A concrete set of collaborators, to run the model

    The fetch and the simulator always answer.  The levelized cost of a
    configuration is 40 plus a tenth of its solar capacity, whatever the
    storage; its renewable percentage is its solar capacity, capped at
    100.  A configuration with neither solar nor generator has zero
    lifetime energy, which the cost model refuses. *)

Definition demo_lcoe (dc : pyval * pyval) : result Q :=
  match dc with
  | (VInt 0, VInt 0) => Raise (ValueError "Lifetime energy is ZERO")
  | (VInt s, _) => Ok (inject_Z (40 + s / 10))
  | _ => Raise (OtherException "unsupported capacity")
  end.

Definition demo : Collaborators := {|
  SolarDF := Z;
  Annual := pyval;
  DataCenter := pyval * pyval;
  CostInputs := unit;
  get_solar_ac_dataframe := fun _ _ => Ok 8760;
  simulate_system := fun _ _ _ solar _ _ _ => Ok {[ "annual_results" := solar ]};
  DataCenter_init := fun solar _ gen _ _ _ => Ok (solar, gen);
  calculate_lcoe := demo_lcoe;
  calculate_energy_mix := fun annual =>
    Ok {[ "renewable_percentage" :=
            match annual with VInt s => inject_Z (Z.min s 100) | _ => 0%Q end ]};
  float_repr := fun _ => "<float>"
|}.

Definition demo_world : @world demo := @World demo [] [].

(** The world once the profile of the demo location is cached. *)
Definition demo_world_fetched : @world demo :=
  @World demo [(VFloat (31 # 1), VFloat (-102 # 1), 8760)]
              [EvFetch (VFloat (31 # 1)) (VFloat (-102 # 1))].

(** Solar 0, 50; storage 0, 50; generator 25. *)
Definition demo_config : @config demo := {|
  lat := 31 # 1; lon := -102 # 1;
  dc_load := 100; gen_type := "Gas Engine";
  solar_start := 0; solar_stop := 100; solar_step := 50;
  bess_start := 0; bess_stop := 100; bess_step := 50;
  gen_start := 25; gen_stop := 50; gen_step := 25;
  max_conc := 10; limit_rows := 0;
  cost_inputs := (tt : @CostInputs demo); now := "2025-01-01 00:00:00"
|}.

Definition demo_cases : list (gmap string pyval) :=
  map (fun '(s, b, g) => make_case demo_config s b g)
      (product3 [0; 50] [0; 50] [25]).

(** The table and the final world of the demo sweep for a completion order. *)
Definition demo_table (picks : list nat) : list (gmap string pyval) :=
  match fst (run_threads demo_config picks demo_cases demo_world) with
  | inr results => results
  | inl _ => []
  end.

Definition demo_final (picks : list nat) : @world demo :=
  snd (run_threads demo_config picks demo_cases demo_world).

(** The same sweep with a load of 0, with an empty solar range, with no
    worker allowed, and reduced to the one configuration without any
    source of energy. *)
Definition demo_config_no_load : @config demo :=
  @Config demo (31 # 1) (-102 # 1) 0 "Gas Engine" 0 100 50 0 100 50 25 50 25
          10 0 tt "2025-01-01 00:00:00".

Definition demo_config_empty : @config demo :=
  @Config demo (31 # 1) (-102 # 1) 100 "Gas Engine" 100 100 50 0 100 50 25 50 25
          10 0 tt "2025-01-01 00:00:00".

Definition demo_config_no_worker : @config demo :=
  @Config demo (31 # 1) (-102 # 1) 100 "Gas Engine" 0 100 50 0 100 50 25 50 25
          0 0 tt "2025-01-01 00:00:00".

Definition demo_config_dark : @config demo :=
  @Config demo (31 # 1) (-102 # 1) 100 "Gas Engine" 0 50 50 0 50 50 0 25 25
          10 0 tt "2025-01-01 00:00:00".

Definition demo_case_ok : gmap string pyval := make_case demo_config 50 0 25.

Definition demo_row_ok : gmap string pyval :=
  success_row demo_case_ok "50MW_PV_0MW_BESS_25MW_GasEngine" (45 # 1) (50 # 1).

Definition demo_case_dark : gmap string pyval := make_case demo_config_dark 0 0 0.

Definition demo_row_dark : gmap string pyval :=
  error_row demo_case_dark "error: zero energy".

Definition demo_final_dark : @world demo :=
  snd (run_threads demo_config_dark [] [demo_case_dark] demo_world).

(** The rows of the demo sweep in generation order. *)
Definition demo_rows : list (gmap string pyval) :=
  [success_row (make_case demo_config 0 0 25)
               "0MW_PV_0MW_BESS_25MW_GasEngine" (40 # 1) (0 # 1);
   success_row (make_case demo_config 0 50 25)
               "0MW_PV_50MW_BESS_25MW_GasEngine" (40 # 1) (0 # 1);
   success_row (make_case demo_config 50 0 25)
               "50MW_PV_0MW_BESS_25MW_GasEngine" (45 # 1) (50 # 1);
   success_row (make_case demo_config 50 50 25)
               "50MW_PV_50MW_BESS_25MW_GasEngine" (45 # 1) (50 # 1)].


Definition demo_case_no_load : gmap string pyval :=
  delete "datacenter_load_mw" demo_case_ok.

Definition demo_case_no_solar : gmap string pyval :=
  delete "solar_pv_capacity_mw" demo_case_ok.

(** ** Further notions: the grid of a sweep and the order of its cases *)

(** [x] is one of [start], [start + step], ... below [stop]. *)
Definition on_grid (start stop step x : Z) : Prop :=
  start <= x < stop /\ (x - start) mod step = 0.

(** The three swept capacities of a case, when they are integers. *)
Definition capacities (case : gmap string pyval) : option (Z * Z * Z) :=
  match case !! "solar_pv_capacity_mw", case !! "bess_max_power_mw",
        case !! "generator_capacity_mw" with
  | Some (VInt s), Some (VInt b), Some (VInt g) => Some (s, b, g)
  | _, _, _ => None
  end.

(** Lexicographic order: solar first, then storage, then generator. *)
Definition lex_lt (t1 t2 : Z * Z * Z) : Prop :=
  t1.1.1 < t2.1.1 \/
  (t1.1.1 = t2.1.1 /\ (t1.1.2 < t2.1.2 \/ (t1.1.2 = t2.1.2 /\ t1.2 < t2.2))).

Definition case_before (c1 c2 : gmap string pyval) : Prop :=
  match capacities c1, capacities c2 with
  | Some t1, Some t2 => lex_lt t1 t2
  | _, _ => False
  end.

(** The four keys [run_case] adds to the fields of its case. *)
Definition added_keys : list string :=
  ["system_spec"; "lcoe"; "renewable_percentage"; "status"].

(** Every step of the [try] body returns: the fields are there, the
    profile comes out of the cache or of the fetch, the collaborators
    answer, the generator type is a string; [spec] is the label, [lcoe]
    and [rp] the two objective values, [w1] the world left behind. *)
Definition evaluation_succeeds `{Collaborators} (cost : CostInputs)
    (case : gmap string pyval) (w w1 : world) (spec : string) (lcoe rp : Q) : Prop :=
  exists la lo s b g l gt df pf annual dc mix,
    case !! "lat" = Some la /\ case !! "long" = Some lo /\
    case !! "solar_pv_capacity_mw" = Some s /\
    case !! "bess_max_power_mw" = Some b /\
    case !! "generator_capacity_mw" = Some g /\
    case !! "datacenter_load_mw" = Some l /\
    case !! "generator_type" = Some (VStr gt) /\
    solar_ac_cached la lo w = (Ok df, w1) /\
    simulate_system la lo df s b g l = Ok pf /\
    pf !! "annual_results" = Some annual /\
    DataCenter_init s b g (VStr gt) cost annual = Ok dc /\
    calculate_lcoe dc = Ok lcoe /\
    calculate_energy_mix annual = Ok mix /\
    mix !! "renewable_percentage" = Some rp /\
    spec = py_str s +:+ "MW_PV_" +:+ py_str b +:+ "MW_BESS_"
           +:+ py_str g +:+ "MW_" +:+ remove_spaces gt.

(** [needle] occurs in [hay]. *)
Definition has_substring (needle hay : string) : Prop :=
  exists pre post, hay = pre +:+ needle +:+ post.

(** The configuration with another [limit]. *)
Definition with_limit `{Collaborators} (cfg : config) (limit : Z) : config :=
  Config _ (lat cfg) (lon cfg) (dc_load cfg) (gen_type cfg)
         (solar_start cfg) (solar_stop cfg) (solar_step cfg)
         (bess_start cfg) (bess_stop cfg) (bess_step cfg)
         (gen_start cfg) (gen_stop cfg) (gen_step cfg)
         (max_conc cfg) limit (cost_inputs cfg) (now cfg).


(** A case of the location [(lat_, lon_)]. *)
Definition shares_location (lat_ lon_ : pyval) (case : gmap string pyval) : Prop :=
  case !! "lat" = Some lat_ /\ case !! "long" = Some lon_.

(** What the cache holds for a location is what the fetch returns for it. *)
Definition cache_agrees `{Collaborators} (lat_ lon_ : pyval) (w : world) : Prop :=
  forall v, cached lat_ lon_ w v -> get_solar_ac_dataframe lat_ lon_ = Ok v.

(** The validation of [run_case] lets the case through. *)
Definition accepted (case : gmap string pyval) : bool :=
  match validate_case_inputs case with
  | Ok msg => String.eqb msg ""
  | Raise _ => false
  end.

(** Rank of the first entry of the cache that matches a key: 0 for the
    most recently used entry. *)
Fixpoint lru_position {V} (lat_ lon_ : pyval) (l : list (pyval * pyval * V))
  : option nat :=
  match l with
  | [] => None
  | entry :: rest =>
      if key_eqb lat_ lon_ entry then Some O
      else S <$> lru_position lat_ lon_ rest
  end.

(** Successive lookups of a list of locations, results dropped. *)
Fixpoint lookup_keys `{Collaborators} (keys : list (pyval * pyval)) (w : world)
  : world :=
  match keys with
  | [] => w
  | key :: rest => lookup_keys rest (snd (solar_ac_cached key.1 key.2 w))
  end.

(** ** Further demo data *)

Definition demo_case_no_lat : gmap string pyval := delete "lat" demo_case_ok.

(** A case whose load came as text. *)
Definition demo_case_text_load : gmap string pyval :=
  <["datacenter_load_mw" := VStr "100"]> demo_case_ok.

(** The collaborators of [demo] with a profile provider that is down. *)
Definition demo_offline : Collaborators := {|
  SolarDF := Z;
  Annual := pyval;
  DataCenter := pyval * pyval;
  CostInputs := unit;
  get_solar_ac_dataframe := fun _ _ => Raise (OtherException "no network");
  simulate_system := fun _ _ _ solar _ _ _ => Ok {[ "annual_results" := solar ]};
  DataCenter_init := fun solar _ gen _ _ _ => Ok (solar, gen);
  calculate_lcoe := demo_lcoe;
  calculate_energy_mix := fun annual =>
    Ok {[ "renewable_percentage" :=
            match annual with VInt s => inject_Z (Z.min s 100) | _ => 0%Q end ]};
  float_repr := fun _ => "<float>"
|}.

Definition demo_offline_world : @world demo_offline := @World demo_offline [] [].

(** Solar -50, 0; storage 0; generator 25: the first case is rejected. *)
Definition demo_offline_config : @config demo_offline :=
  @Config demo_offline (31 # 1) (-102 # 1) 100 "Gas Engine" (-50) 50 50 0 50 50 25 50 25
          10 0 tt "2025-01-01 00:00:00".

Definition demo_offline_cases : list (gmap string pyval) :=
  [make_case demo_offline_config (-50) 0 25; make_case demo_offline_config 0 0 25].

(** Two other locations. *)
Definition demo_other_keys : list (pyval * pyval) :=
  [(VFloat (40 # 1), VFloat (-74 # 1)); (VInt 0, VInt 0)].

(** * Properties *)

Section Evaluation.
Context `{Collaborators}.

Implicit Types (case row : gmap string pyval) (w : world) (e : pyexn).

(** ** Validation of one case *)

Lemma validate_missing_load case :
  case !! "datacenter_load_mw" = None ->
  validate_case_inputs case = Ok "invalid: datacenter_load_mw <= 0".
Proof.
  intros Hnone. unfold validate_case_inputs, dict_get0. rewrite Hnone. reflexivity.
Qed.

Lemma validate_insert_default case field :
  case !! field = None ->
  validate_case_inputs (<[field := VInt 0]> case) = validate_case_inputs case.
Proof.
  intros Hnone. unfold validate_case_inputs, dict_get0.
  assert (Hget : forall k, default (VInt 0) (<[field := VInt 0]> case !! k)
                           = default (VInt 0) (case !! k)).
  { intros k. destruct (decide (field = k)) as [<-|Hne].
    - rewrite lookup_insert_eq, Hnone. reflexivity.
    - rewrite lookup_insert_ne by assumption. reflexivity. }
  rewrite !Hget. reflexivity.
Qed.

(** The row of a case whose validation fails. *)
Lemma run_case_invalid cost case w msg :
  validate_case_inputs case = Ok msg -> msg <> "" ->
  run_case cost case w = (Ok (error_row case ("error: " +:+ msg)), w).
Proof.
  intros Hval Hmsg. unfold run_case, bind, lift. rewrite Hval.
  destruct (String.eqb_spec msg "") as [->|_]; [contradiction|]. reflexivity.
Qed.

(** C10: the checks of [validate_case_inputs] run in the order load,
    solar, storage, generator and the message of the first violated one is
    returned; a missing field counts as 0, so a case without a load is
    invalid (and [run_case] reports it so), while a missing capacity passes
    its own check: the answer is the one for capacity 0 and is never that
    capacity's message. *)
Theorem C10_validate_order_and_defaults :
  (forall case, validate_case_inputs case = first_violated case case_checks) /\
  (forall case, case !! "datacenter_load_mw" = None ->
     validate_case_inputs case = Ok "invalid: datacenter_load_mw <= 0" /\
     forall cost w,
       run_case cost case w
       = (Ok (error_row case "error: invalid: datacenter_load_mw <= 0"), w)) /\
  (forall case field test message,
     In (field, test, message) case_checks -> field <> "datacenter_load_mw" ->
     case !! field = None ->
     test (default (VInt 0) (case !! field)) = Ok false /\
     validate_case_inputs case = validate_case_inputs (<[field := VInt 0]> case) /\
     validate_case_inputs case <> Ok message).
Proof.
  split; [|split].
  - intros case. reflexivity.
  - intros case Hnone. split; [apply validate_missing_load; assumption|].
    intros cost w.
    apply (run_case_invalid cost case w "invalid: datacenter_load_mw <= 0");
      [apply validate_missing_load; assumption | discriminate].
  - intros case field test message Hin Hload Hnone.
    split; [|split].
    + rewrite Hnone. simpl in Hin.
      destruct Hin as [Heq|[Heq|[Heq|[Heq|[]]]]]; inversion Heq; subst;
        try reflexivity; congruence.
    + symmetry. apply validate_insert_default. assumption.
    + unfold validate_case_inputs, dict_get0. simpl in Hin.
      destruct Hin as [Heq|[Heq|[Heq|[Heq|[]]]]]; inversion Heq; subst;
        try congruence; rewrite Hnone; simpl;
        repeat match goal with
               | |- context [match ?x with _ => _ end] => destruct x
               end; discriminate.
Qed.

(** ** Shape of what [run_case] returns *)

Ltac body_step :=
  match goal with
  | Hb : context [match ?x with _ => _ end] |- _ =>
      let E := fresh "E" in destruct x eqn:E; simpl in Hb; try discriminate Hb
  end.

Lemma run_case_body_ok cost case w row w' :
  run_case_body cost case w = (Ok row, w') ->
  exists spec lcoe rp, row = success_row case spec lcoe rp.
Proof.
  intros Hb. unfold run_case_body, bind, lift, ret in Hb.
  repeat body_step. inversion Hb; subst. eauto.
Qed.

Lemma run_case_unfold cost case w :
  run_case cost case w =
  match validate_case_inputs case with
  | Raise e => (Raise e, w)
  | Ok msg =>
      if String.eqb msg "" then
        match run_case_body cost case w with
        | (Ok row, w') => (Ok row, w')
        | (Raise e, w') => (Ok (error_row case (except_status e)), w')
        end
      else (Ok (error_row case ("error: " +:+ msg)), w)
  end.
Proof.
  unfold run_case, bind, lift, try_except, ret.
  destruct (validate_case_inputs case) as [msg|e]; [|reflexivity].
  destruct (String.eqb msg ""); simpl; [|reflexivity].
  destruct (run_case_body cost case w) as [[row|e] w']; reflexivity.
Qed.

(** A row of [run_case] is a success row or an error row whose status
    starts with [error: ]. *)
Lemma run_case_row cost case w row w' :
  run_case cost case w = (Ok row, w') ->
  (exists spec lcoe rp, row = success_row case spec lcoe rp) \/
  (exists reason, row = error_row case ("error: " +:+ reason)).
Proof.
  rewrite run_case_unfold.
  destruct (validate_case_inputs case) as [msg|e]; [|discriminate].
  destruct (String.eqb msg "").
  - destruct (run_case_body cost case w) as [[r|e] w1] eqn:Hb; intros Heq;
      inversion Heq; subst.
    + left. eapply run_case_body_ok; eassumption.
    + right. unfold except_status.
      destruct e; try (eexists; reflexivity).
      destruct (mentions_zero_energy _); eexists; reflexivity.
  - intros Heq; inversion Heq; subst. right. eexists; reflexivity.
Qed.

Lemma success_row_lookup case spec lcoe rp :
  success_row case spec lcoe rp !! "status" = Some (VStr "success") /\
  success_row case spec lcoe rp !! "lcoe" = Some (VFloat lcoe) /\
  success_row case spec lcoe rp !! "renewable_percentage" = Some (VFloat rp).
Proof. unfold success_row. repeat split; by simplify_map_eq. Qed.

Lemma error_row_lookup case status :
  error_row case status !! "status" = Some (VStr status) /\
  error_row case status !! "lcoe" = Some VNone /\
  error_row case status !! "renewable_percentage" = Some VNone.
Proof. unfold error_row. repeat split; by simplify_map_eq. Qed.

Lemma present_float row field q :
  row !! field = Some (VFloat q) -> present row field.
Proof. intros Hl. exists (VFloat q). split; [assumption|discriminate]. Qed.

Lemma not_present_none row field :
  row !! field = Some VNone -> ~ present row field.
Proof. intros Hl (v & Hv & Hne). rewrite Hl in Hv. inversion Hv; subst. congruence. Qed.

(** C3: in every row returned by [run_case], the levelized cost and the
    renewable percentage are present exactly when the status is
    [success]; a row with another status carries [None] in both. *)
Theorem C3_objectives_iff_success cost case w row w' :
  run_case cost case w = (Ok row, w') ->
  (present row "lcoe" /\ present row "renewable_percentage"
   <-> row !! "status" = Some (VStr "success")) /\
  (present row "lcoe" <-> row !! "status" = Some (VStr "success")) /\
  (present row "renewable_percentage" <-> row !! "status" = Some (VStr "success")) /\
  (row !! "status" <> Some (VStr "success") ->
   row !! "lcoe" = Some VNone /\ row !! "renewable_percentage" = Some VNone).
Proof.
  intros Hrun. apply run_case_row in Hrun.
  destruct Hrun as [(spec & lcoe & rp & ->)|(reason & ->)].
  - destruct (success_row_lookup case spec lcoe rp) as (Hs & Hl & Hr).
    apply present_float in Hl. apply present_float in Hr.
    repeat split; intros; auto; contradiction.
  - destruct (error_row_lookup case ("error: " +:+ reason)) as (Hs & Hl & Hr).
    assert (Hns : error_row case ("error: " +:+ reason) !! "status"
                  <> Some (VStr "success")).
    { rewrite Hs. intros Heq. inversion Heq. }
    pose proof (not_present_none _ _ Hl). pose proof (not_present_none _ _ Hr).
    repeat split; try tauto.
Qed.

(** ** Exceptions raised under the [try] *)


(** What [run_case] raises was raised by the validation, outside the [try]. *)
Lemma run_case_raises_validation cost case w e w' :
  run_case cost case w = (Raise e, w') ->
  validate_case_inputs case = Raise e /\ w' = w.
Proof.
  rewrite run_case_unfold.
  destruct (validate_case_inputs case) as [msg|e0].
  - destruct (String.eqb msg ""); [|discriminate].
    destruct (run_case_body cost case w) as [[r|e1] w1]; discriminate.
  - intros Heq. inversion Heq; subst. split; reflexivity.
Qed.


End Evaluation.

(** ** Input validation and the sweep *)

Section Sweep.
Context `{Collaborators}.

Implicit Types (cfg : config) (w : world) (picks : list nat).

Lemma validation_errors_nil cfg :
  validation_errors cfg = [] <->
  0 < dc_load cfg /\ 0 < solar_step cfg /\ 0 < bess_step cfg /\ 0 < gen_step cfg.
Proof.
  unfold validation_errors.
  destruct (Z.leb_spec (dc_load cfg) 0); destruct (Z.leb_spec (solar_step cfg) 0);
    destruct (Z.leb_spec (bess_step cfg) 0); destruct (Z.leb_spec (gen_step cfg) 0);
    simpl; split; intros Hx; try discriminate Hx; try reflexivity; try lia.
Qed.

Lemma py_range_positive_step start stop step :
  0 < step -> exists vals, py_range start stop step = Ok vals.
Proof.
  intros Hpos. unfold py_range.
  destruct (Z.eqb_spec step 0); [lia|]. eexists; reflexivity.
Qed.

Lemma build_cases_invalid cfg :
  validation_errors cfg <> [] ->
  build_cases cfg = inl (Stopped (validation_message (validation_errors cfg))).
Proof.
  intros Hne. unfold build_cases.
  destruct (validation_errors cfg); [contradiction|reflexivity].
Qed.

Lemma script_build_stops cfg picks w o :
  build_cases cfg = inl o -> script cfg picks w = (o, w).
Proof. intros Hb. unfold script. rewrite Hb. reflexivity. Qed.

Lemma product3_length {A B C} (xs : list A) (ys : list B) (zs : list C) :
  length (product3 xs ys zs) = (length xs * length ys * length zs)%nat.
Proof.
  unfold product3. induction xs as [|x xs IH]; simpl; [reflexivity|].
  rewrite length_app, IH.
  assert (Hy : length (flat_map (fun y => map (fun z => (x, y, z)) zs) ys)
               = (length ys * length zs)%nat).
  { clear. induction ys as [|y ys IHy]; simpl; [reflexivity|].
    rewrite length_app, length_map, IHy. reflexivity. }
  rewrite Hy. lia.
Qed.

(** What [build_cases] returns when the script goes on. *)
Lemma build_cases_inr cfg cases :
  build_cases cfg = inr cases ->
  validation_errors cfg = [] /\
  exists sv bv gv,
    py_range (solar_start cfg) (solar_stop cfg) (solar_step cfg) = Ok sv /\
    py_range (bess_start cfg) (bess_stop cfg) (bess_step cfg) = Ok bv /\
    py_range (gen_start cfg) (gen_stop cfg) (gen_step cfg) = Ok gv /\
    sv <> [] /\ bv <> [] /\ gv <> [] /\
    cases = map (fun '(s, b, g) => make_case cfg s b g) (product3 sv bv gv).
Proof.
  unfold build_cases.
  destruct (validation_errors cfg); [|discriminate].
  destruct (py_range (solar_start cfg) _ _) as [sv|]; [|discriminate].
  destruct (py_range (bess_start cfg) _ _) as [bv|]; [|discriminate].
  destruct (py_range (gen_start cfg) _ _) as [gv|]; [|discriminate].
  destruct sv as [|s0 sv]; [discriminate|].
  destruct bv as [|b0 bv]; [discriminate|].
  destruct gv as [|g0 gv]; [discriminate|].
  intros Heq. inversion Heq; subst. split; [reflexivity|].
  exists (s0 :: sv), (b0 :: bv), (g0 :: gv).
  repeat split; try reflexivity; discriminate.
Qed.

(** C5: a non-positive load or step stops the script with the validation
    message, and, once the four checks pass, an empty range stops it with
    the empty-sweep message; in both cases no case has been built and the
    world is untouched (no case evaluated, no profile fetched).  The script
    never goes on with zero cases. *)
Theorem C5_validation_and_empty_sweep_abort cfg picks w :
  (dc_load cfg <= 0 \/ solar_step cfg <= 0 \/ bess_step cfg <= 0 \/ gen_step cfg <= 0 ->
   validation_errors cfg <> [] /\
   build_cases cfg = inl (Stopped (validation_message (validation_errors cfg))) /\
   script cfg picks w = (Stopped (validation_message (validation_errors cfg)), w)) /\
  (0 < dc_load cfg -> 0 < solar_step cfg -> 0 < bess_step cfg -> 0 < gen_step cfg ->
   py_range (solar_start cfg) (solar_stop cfg) (solar_step cfg) = Ok [] \/
   py_range (bess_start cfg) (bess_stop cfg) (bess_step cfg) = Ok [] \/
   py_range (gen_start cfg) (gen_stop cfg) (gen_step cfg) = Ok [] ->
   build_cases cfg = inl (Stopped empty_sweep_message) /\
   script cfg picks w = (Stopped empty_sweep_message, w)) /\
  build_cases cfg <> inr [].
Proof.
  split; [|split].
  - intros Hbad.
    assert (Hne : validation_errors cfg <> []).
    { intros Hnil. apply validation_errors_nil in Hnil. lia. }
    split; [assumption|].
    split; [apply build_cases_invalid; assumption|].
    apply script_build_stops, build_cases_invalid. assumption.
  - intros Hl Hs Hb Hg Hempty.
    assert (Hbuild : build_cases cfg = inl (Stopped empty_sweep_message)).
    { unfold build_cases.
      rewrite (proj2 (validation_errors_nil cfg)) by auto.
      destruct (py_range_positive_step (solar_start cfg) (solar_stop cfg) _ Hs) as [sv Hsv].
      destruct (py_range_positive_step (bess_start cfg) (bess_stop cfg) _ Hb) as [bv Hbv].
      destruct (py_range_positive_step (gen_start cfg) (gen_stop cfg) _ Hg) as [gv Hgv].
      rewrite Hsv, Hbv, Hgv in *.
      destruct Hempty as [Heq|[Heq|Heq]]; inversion Heq; subst; clear Heq;
        repeat match goal with
               | |- context [match ?l with [] => _ | _ :: _ => _ end] =>
                   is_var l; destruct l
               end; reflexivity. }
    split; [assumption|]. apply script_build_stops. assumption.
  - intros Hb. apply build_cases_inr in Hb.
    destruct Hb as (_ & sv & bv & gv & _ & _ & _ & Hsv & Hbv & Hgv & Hcases).
    symmetry in Hcases. apply map_eq_nil in Hcases.
    apply (f_equal (@length _)) in Hcases. rewrite product3_length in Hcases.
    destruct sv, bv, gv; try contradiction; simpl in Hcases; lia.
Qed.

(** C7: with [max_conc] below 1 the script ends before any worker runs:
    the world is untouched and nothing is rendered; when the inputs are
    valid and the sweep is not empty it ends with the [ValueError] of the
    thread pool constructor. *)
Theorem C7_max_conc_below_one_rejected cfg picks w :
  max_conc cfg < 1 ->
  exists o,
    script cfg picks w = (o, w) /\
    (forall n best raw pareto, o <> Rendered n best raw pareto) /\
    (forall cases, build_cases cfg = inr cases ->
       o = Uncaught (ValueError "max_workers must be greater than 0")).
Proof.
  intros Hconc. unfold script.
  destruct (build_cases cfg) as [o|cases] eqn:Hb.
  - exists o. split; [reflexivity|]. split; [|discriminate].
    intros n best raw pareto ->. unfold build_cases in Hb.
    repeat match type of Hb with
           | context [match ?x with _ => _ end] => destruct x; try discriminate Hb
           end.
  - unfold run_threads, ThreadPoolExecutor.
    destruct (Z.leb_spec (max_conc cfg) 0); [|lia].
    eexists. split; [reflexivity|]. split; [discriminate|]. reflexivity.
Qed.

End Sweep.

(** ** The thread pool run *)

Section Run.
Context `{Collaborators}.

Implicit Types (cfg : config) (w : world) (picks : list nat)
  (cases results : list (gmap string pyval)).

Lemma as_completed_from_Permutation {A} fuel picks (pending : list A) :
  length pending = fuel ->
  Permutation (as_completed_from fuel picks pending) pending.
Proof.
  revert picks pending.
  induction fuel as [|fuel IH]; intros picks pending Hlen; simpl.
  - destruct pending; [constructor|discriminate].
  - assert (Hk : (hd O picks mod length pending < length pending)%nat)
      by (apply Nat.mod_upper_bound; lia).
    destruct (lookup_lt_is_Some_2 _ _ Hk) as [fut Hfut].
    rewrite Hfut.
    eapply Permutation_trans;
      [|symmetry; apply (delete_Permutation pending _ fut Hfut)].
    constructor. apply IH.
    rewrite length_delete by eauto. lia.
Qed.

Lemma as_completed_Permutation {A} picks (futures : list A) :
  Permutation (as_completed picks futures) futures.
Proof. apply as_completed_from_Permutation. reflexivity. Qed.


Lemma run_case_returns cost case w :
  (exists msg, validate_case_inputs case = Ok msg) ->
  exists row w', run_case cost case w = (Ok row, w').
Proof.
  intros [msg Hval].
  destruct (run_case cost case w) as [[row|e] w'] eqn:Hrun; [eauto|].
  apply run_case_raises_validation in Hrun.
  destruct Hrun as [Hraise _]. congruence.
Qed.

Lemma run_futures_Forall2 cost order w futs w' :
  run_futures cost order w = (futs, w') ->
  Forall2 (fun case fut => exists w1 w2, worker cost case w1 = (fut, w2)) order futs.
Proof.
  revert w futs w'. induction order as [|case rest IH]; intros w futs w'; simpl.
  - intros Heq. inversion Heq. constructor.
  - destruct (worker cost case w) as [r w1] eqn:Hw.
    destruct (run_futures cost rest w1) as [rs w2] eqn:Hrest.
    intros Heq. inversion Heq; subst. constructor; eauto.
Qed.

Lemma collect_results_Ok {A} (futs : list (result A)) rows :
  collect_results futs = Ok rows -> futs = map Ok rows.
Proof.
  revert rows. induction futs as [|[r|e] rest IH]; intros rows; simpl.
  - intros Heq. inversion Heq. reflexivity.
  - destruct (collect_results rest) as [rs|]; [|discriminate].
    intros Heq. inversion Heq; subst. simpl. f_equal. apply IH. reflexivity.
  - discriminate.
Qed.

Lemma collect_results_all_Ok {A} (futs : list (result A)) :
  Forall (fun fut => exists row, fut = Ok row) futs ->
  exists rows, collect_results futs = Ok rows.
Proof.
  induction 1 as [|fut rest [row ->] _ [rows IH]]; simpl; [eauto|].
  rewrite IH. eauto.
Qed.

(** The table of a finished run: one row per case, in completion order. *)
Lemma run_threads_table cfg picks cases w results w' :
  run_threads cfg picks cases w = (inr results, w') ->
  Forall2 (evaluates_to (cost_inputs cfg)) (as_completed picks cases) results.
Proof.
  unfold run_threads.
  destruct (ThreadPoolExecutor (max_conc cfg)); [|discriminate].
  destruct (run_futures _ _ w) as [futs w1] eqn:Hrun.
  destruct (collect_results futs) as [rows|] eqn:Hcol; [|discriminate].
  intros Heq. inversion Heq; subst.
  apply run_futures_Forall2 in Hrun. apply collect_results_Ok in Hcol. subst futs.
  clear -Hrun. revert Hrun. generalize (as_completed picks cases).
  induction results as [|row rest IH]; intros order Hf; inversion Hf; subst;
    constructor; [assumption|auto].
Qed.

Lemma run_threads_returns cfg picks cases w :
  0 < max_conc cfg ->
  Forall (fun case => exists msg, validate_case_inputs case = Ok msg) cases ->
  exists results w', run_threads cfg picks cases w = (inr results, w').
Proof.
  intros Hconc Hvalid. unfold run_threads, ThreadPoolExecutor.
  destruct (Z.leb_spec (max_conc cfg) 0); [lia|].
  destruct (run_futures _ _ w) as [futs w1] eqn:Hrun.
  apply run_futures_Forall2 in Hrun.
  assert (Hok : Forall (fun fut => exists row, fut = Ok row) futs).
  { assert (Hv : Forall (fun case => exists msg, validate_case_inputs case = Ok msg)
                        (as_completed picks cases)).
    { apply (Permutation_Forall
               (Permutation_sym (as_completed_Permutation picks cases))), Hvalid. }
    clear -Hrun Hv. induction Hrun as [|case fut order futs (w1 & w2 & Hw) _ IH];
      [constructor|].
    inversion Hv; subst. constructor; [|auto].
    unfold worker in Hw.
    destruct (run_case_returns (cost_inputs cfg) case
                (World _ (lru w1) (events w1 ++ [EvRunCase case])%list))
      as (row & w3 & Hrow); [assumption|].
    rewrite Hrow in Hw. inversion Hw. eauto. }
  destruct (collect_results_all_Ok futs Hok) as [rows Hrows].
  rewrite Hrows. eauto.
Qed.

Lemma validate_make_case cfg s b g :
  exists msg, validate_case_inputs (make_case cfg s b g) = Ok msg.
Proof.
  unfold validate_case_inputs, dict_get0, make_case. simplify_map_eq. simpl.
  destruct (dc_load cfg <=? 0); [eauto|].
  destruct (s <? 0); [eauto|]. destruct (b <? 0); [eauto|].
  destruct (g <? 0); eauto.
Qed.

(** C2: when the script reaches the thread pool, every table it can build
    has exactly |solar_vals| * |bess_vals| * |gen_vals| rows, one for each
    generated case (the rows are the evaluations of a permutation of the
    cases, failed evaluations included); and with a positive [max_conc] the
    table is built. *)
Theorem C2_table_length_is_sweep_size cfg picks w cases :
  build_cases cfg = inr cases ->
  exists sv bv gv,
    py_range (solar_start cfg) (solar_stop cfg) (solar_step cfg) = Ok sv /\
    py_range (bess_start cfg) (bess_stop cfg) (bess_step cfg) = Ok bv /\
    py_range (gen_start cfg) (gen_stop cfg) (gen_step cfg) = Ok gv /\
    length cases = (length sv * length bv * length gv)%nat /\
    (forall results w',
       run_threads cfg picks cases w = (inr results, w') ->
       length results = (length sv * length bv * length gv)%nat /\
       exists order, Permutation order cases /\
                     Forall2 (evaluates_to (cost_inputs cfg)) order results) /\
    (0 < max_conc cfg ->
     exists results w', run_threads cfg picks cases w = (inr results, w')).
Proof.
  intros Hbuild. apply build_cases_inr in Hbuild.
  destruct Hbuild as (_ & sv & bv & gv & Hsv & Hbv & Hgv & _ & _ & _ & ->).
  exists sv, bv, gv.
  split; [assumption|]. split; [assumption|]. split; [assumption|].
  split; [rewrite length_map; apply product3_length|]. split.
  - intros results w' Hrun. apply run_threads_table in Hrun. split.
    + rewrite <- (Forall2_length _ _ _ Hrun).
      rewrite (Permutation_length (as_completed_Permutation picks _)).
      rewrite length_map. apply product3_length.
    + eexists. split; [|exact Hrun]. apply as_completed_Permutation.
  - intros Hconc. apply run_threads_returns; [assumption|].
    apply List.Forall_forall. intros case Hin. apply in_map_iff in Hin.
    destruct Hin as ([[s b] g] & <- & _). apply validate_make_case.
Qed.

End Run.

(** ** The best row *)

Section Aggregation.
Context `{Collaborators}.

Implicit Types (cfg : config) (results : list (gmap string pyval))
  (row : gmap string pyval) (df : list (nat * gmap string pyval)).

Lemma Qlt_bool_iff a b : Qlt_bool a b = true <-> (a < b)%Q.
Proof.
  unfold Qlt_bool. rewrite negb_true_iff. split.
  - intros Hle. apply Qnot_le_lt. intros Hba.
    apply Qle_bool_iff in Hba. congruence.
  - intros Hlt. destruct (Qle_bool b a) eqn:Hle; [|reflexivity].
    apply Qle_bool_iff in Hle. lra.
Qed.

Lemma Qlt_bool_false a b : Qlt_bool a b = false <-> (b <= a)%Q.
Proof.
  unfold Qlt_bool. rewrite negb_false_iff. apply Qle_bool_iff.
Qed.

Lemma with_columns_lookup now_ row k :
  k ∈ cols -> k <> "timestamp" -> with_columns now_ row !! k = row !! k.
Proof.
  intros Hin Hne. unfold with_columns.
  destruct (row !! k) as [v|] eqn:Hk.
  - apply map_lookup_filter_Some. split; [|exact Hin].
    rewrite lookup_insert_ne by congruence. exact Hk.
  - apply map_lookup_filter_None. left.
    rewrite lookup_insert_ne by congruence. exact Hk.
Qed.

Lemma with_columns_success now_ row :
  is_success (with_columns now_ row) = is_success row.
Proof.
  unfold is_success. rewrite with_columns_lookup; [reflexivity| |discriminate].
  unfold cols. set_solver.
Qed.

Lemma with_columns_lcoe now_ row :
  cell_number (with_columns now_ row) "lcoe" = cell_number row "lcoe".
Proof.
  unfold cell_number. rewrite with_columns_lookup; [reflexivity| |discriminate].
  unfold cols. set_solver.
Qed.

(** [idxmin_from] returns the running best, or the first entry of the
    frame that is strictly below everything before it and not above
    anything after it. *)
Lemma idxmin_from_split col df best i q :
  idxmin_from best col df = Some (i, q) ->
  (best = Some (i, q) /\
   forall j r q', In (j, r) df -> cell_number r col = Some q' -> (q <= q')%Q)
  \/
  (exists pre row post,
     df = (pre ++ (i, row) :: post)%list /\ cell_number row col = Some q /\
     (forall bi bq, best = Some (bi, bq) -> (q < bq)%Q) /\
     (forall j r q', In (j, r) pre -> cell_number r col = Some q' -> (q < q')%Q) /\
     (forall j r q', In (j, r) post -> cell_number r col = Some q' -> (q <= q')%Q)).
Proof.
  revert best. induction df as [|[j0 r0] rest IH]; intros best; simpl.
  - intros ->. left. split; [reflexivity|]. intros j r q' [].
  - destruct (cell_number r0 col) as [q0|] eqn:Hcell.
    + destruct best as [[bi bq]|].
      * destruct (Qlt_bool q0 bq) eqn:Hlt.
        -- apply Qlt_bool_iff in Hlt. intros Hres.
           destruct (IH _ Hres) as [[Hbest Hall]|(pre & row & post & -> & Hrow & Hb & Hpre & Hpost)].
           ++ inversion Hbest; subst. right. exists [], r0, rest.
              repeat split; auto.
              ** intros bi' bq' Heq. inversion Heq; subst. exact Hlt.
              ** intros j r q' [].
           ++ right. exists ((j0, r0) :: pre), row, post.
              repeat split; auto.
              ** intros bi' bq' Heq. inversion Heq; subst.
                 pose proof (Hb _ _ eq_refl). lra.
              ** intros j r q' [Heq|Hin] Hc.
                 --- inversion Heq; subst. rewrite Hcell in Hc. inversion Hc; subst.
                     apply (Hb _ _ eq_refl).
                 --- eapply Hpre; eassumption.
        -- apply Qlt_bool_false in Hlt. intros Hres.
           destruct (IH _ Hres) as [[Hbest Hall]|(pre & row & post & -> & Hrow & Hb & Hpre & Hpost)].
           ++ inversion Hbest; subst. left. split; [reflexivity|].
              intros j r q' [Heq|Hin] Hc.
              ** inversion Heq; subst. rewrite Hcell in Hc. inversion Hc; subst. exact Hlt.
              ** eapply Hall; eassumption.
           ++ right. exists ((j0, r0) :: pre), row, post.
              repeat split; auto.
              intros j r q' [Heq|Hin] Hc.
              ** inversion Heq; subst. rewrite Hcell in Hc. inversion Hc; subst.
                 pose proof (Hb _ _ eq_refl). lra.
              ** eapply Hpre; eassumption.
      * intros Hres.
        destruct (IH _ Hres) as [[Hbest Hall]|(pre & row & post & -> & Hrow & Hb & Hpre & Hpost)].
        -- inversion Hbest; subst. right. exists [], r0, rest.
           repeat split; auto; try discriminate. intros j r q' [].
        -- right. exists ((j0, r0) :: pre), row, post.
           repeat split; auto; try discriminate.
           intros j r q' [Heq|Hin] Hc.
           ++ inversion Heq; subst. rewrite Hcell in Hc. inversion Hc; subst.
              apply (Hb _ _ eq_refl).
           ++ eapply Hpre; eassumption.
    + intros Hres.
      destruct (IH _ Hres) as [[Hbest Hall]|(pre & row & post & -> & Hrow & Hb & Hpre & Hpost)].
      * left. split; [assumption|].
        intros j r q' [Heq|Hin] Hc.
        -- inversion Heq; subst. congruence.
        -- eapply Hall; eassumption.
      * right. exists ((j0, r0) :: pre), row, post.
        repeat split; auto.
        intros j r q' [Heq|Hin] Hc.
        -- inversion Heq; subst. congruence.
        -- eapply Hpre; eassumption.
Qed.

(** A frame with at least one number in the column has an [idxmin]. *)
Lemma idxmin_from_is_Some col df best :
  (is_Some best \/ exists j r q, In (j, r) df /\ cell_number r col = Some q) ->
  is_Some (idxmin_from best col df).
Proof.
  revert best. induction df as [|[j0 r0] rest IH]; intros best Hsome; simpl.
  - destruct Hsome as [Hb|(j & r & q & [] & _)]. exact Hb.
  - destruct (cell_number r0 col) as [q0|] eqn:Hcell.
    + destruct best as [[bi bq]|]; [destruct (Qlt_bool q0 bq)|];
        apply IH; left; eauto.
    + apply IH. destruct Hsome as [Hb|(j & r & q & [Heq|Hin] & Hc)]; [auto| |eauto 6].
      inversion Heq; subst. congruence.
Qed.

Lemma labels_sorted_from now_ results n :
  StronglySorted label_lt
    (imap (fun i r => ((n + i)%nat, with_columns now_ r)) results).
Proof.
  revert n. induction results as [|r rest IH]; intros n; [constructor|].
  rewrite imap_cons.
  rewrite (imap_ext _ (fun i r => ((S n + i)%nat, with_columns now_ r)))
    by (intros i x _; simpl; f_equal; lia).
  constructor; [apply IH|].
  apply List.Forall_forall. intros x Hin. apply list_elem_of_In in Hin.
  apply elem_of_lookup_imap in Hin. destruct Hin as (i & y & -> & _).
  unfold label_lt. simpl. lia.
Qed.

Lemma raw_table_imap now_ results :
  raw_table now_ results = imap (fun i r => (i, with_columns now_ r)) results.
Proof.
  unfold raw_table, pd_DataFrame.
  change (map ?f ?l) with (f <$> l). rewrite fmap_imap. reflexivity.
Qed.

Lemma raw_table_sorted now_ results :
  StronglySorted label_lt (raw_table now_ results).
Proof. rewrite raw_table_imap. apply (labels_sorted_from now_ results 0). Qed.

Lemma raw_table_In now_ results j r :
  In (j, r) (raw_table now_ results) <->
  exists row, results !! j = Some row /\ r = with_columns now_ row.
Proof.
  rewrite raw_table_imap, <- list_elem_of_In, elem_of_lookup_imap. split.
  - intros (i & row & Heq & Hl). inversion Heq; subst. eauto.
  - intros (row & Hl & ->). eauto.
Qed.

Lemma StronglySorted_filter_bool {A} (R : A -> A -> Prop) (f : A -> bool) l :
  StronglySorted R l -> StronglySorted R (List.filter f l).
Proof.
  induction 1 as [|x l Hs IH Hall]; simpl; [constructor|].
  destruct (f x); [|exact IH]. constructor; [exact IH|].
  apply List.Forall_forall. intros y Hy. apply List.filter_In in Hy.
  rewrite List.Forall_forall in Hall. apply Hall, Hy.
Qed.

Lemma loc_split label pre row post :
  (forall j r, In (j, r) pre -> (j < label)%nat) ->
  loc label (pre ++ (label, row) :: post) = Some row.
Proof.
  intros Hpre. unfold loc. induction pre as [|[j r] pre IH]; simpl.
  - rewrite Nat.eqb_refl. reflexivity.
  - destruct (Nat.eqb_spec j label) as [->|_].
    + specialize (Hpre label r (or_introl eq_refl)). lia.
    + apply IH. intros j' r' Hin. eapply Hpre. right. exact Hin.
Qed.

(** The success rows of the raw table, with their labels. *)
Lemma succ_In now_ results j r :
  In (j, r) (List.filter (fun ir : nat * gmap string pyval => is_success ir.2)
                         (raw_table now_ results)) <->
  exists row, results !! j = Some row /\ r = with_columns now_ row /\
              is_success row = true.
Proof.
  rewrite List.filter_In, raw_table_In. simpl. split.
  - intros [(row & Hl & ->) Hs]. rewrite with_columns_success in Hs. eauto.
  - intros (row & Hl & -> & Hs). rewrite with_columns_success. eauto.
Qed.

(** The success frame around its [idxmin]. *)
Lemma succ_idxmin_loc now_ results i q :
  let succ := List.filter (fun ir : nat * gmap string pyval => is_success ir.2)
                          (raw_table now_ results) in
  idxmin_from None "lcoe" succ = Some (i, q) ->
  exists pre row post,
    succ = (pre ++ (i, row) :: post)%list /\
    cell_number row "lcoe" = Some q /\
    loc i succ = Some row /\
    (forall j r q', In (j, r) pre -> cell_number r "lcoe" = Some q' ->
                    (q < q')%Q /\ (j < i)%nat) /\
    (forall j r q', In (j, r) post -> cell_number r "lcoe" = Some q' ->
                    (q <= q')%Q /\ (i < j)%nat).
Proof.
  intros succ Hidx.
  assert (Hsorted : StronglySorted label_lt succ)
    by apply StronglySorted_filter_bool, raw_table_sorted.
  apply idxmin_from_split in Hidx.
  destruct Hidx as [[Hnone _]|(pre & row & post & Hsplit & Hrow & _ & Hpre & Hpost)];
    [discriminate|].
  rewrite Hsplit in Hsorted.
  assert (Hlow : forall j r, In (j, r) pre -> (j < i)%nat).
  { intros j r Hj.
    apply (StronglySorted_app_1_elem_of label_lt _ _ (j, r) (i, row) Hsorted).
    - apply list_elem_of_In, Hj.
    - apply list_elem_of_In. left. reflexivity. }
  assert (Hhigh : forall j r, In (j, r) post -> (i < j)%nat).
  { intros j r Hj. apply StronglySorted_app_1_r in Hsorted.
    apply StronglySorted_inv in Hsorted. destruct Hsorted as [_ Hall].
    rewrite List.Forall_forall in Hall. apply (Hall (j, r) Hj). }
  exists pre, row, post.
  split; [assumption|]. split; [assumption|].
  split; [rewrite Hsplit; apply loc_split; assumption|].
  split; intros j r q' Hj Hc; split; eauto.
Qed.

(** What [report] renders as best row. *)
Lemma report_best cfg results n best raw pareto :
  report cfg results = Rendered n best raw pareto ->
  selects_first_minimum results (now cfg) best.
Proof.
  unfold report.
  pose proof (succ_idxmin_loc (now cfg) results) as Hloc.
  pose proof (succ_In (now cfg) results) as Hin.
  cbv zeta in Hloc.
  set (succ := List.filter _ (raw_table (now cfg) results)) in *.
  destruct succ as [|first others] eqn:Hsucc; [discriminate|].
  rewrite <- Hsucc in *. clear Hsucc first others.
  unfold idxmin.
  destruct (idxmin_from None "lcoe" succ) as [[i q]|] eqn:Hidx; simpl; [|discriminate].
  destruct (Hloc i q eq_refl)
    as (pre & row & post & Hsplit & Hrow & Hfound & Hpre & Hpost).
  rewrite Hfound.
  intros Heq. inversion Heq; subst n best raw pareto. clear Heq.
  destruct (proj1 (Hin i row)) as (row0 & Hl0 & -> & Hs0).
  { rewrite Hsplit. apply in_or_app. right. left. reflexivity. }
  rewrite with_columns_lcoe in Hrow.
  exists i, row0, q.
  split; [assumption|]. split; [reflexivity|].
  split; [assumption|]. split; [assumption|].
  intros j row' c' Hl Hs Hc.
  assert (Hmem : In (j, with_columns (now cfg) row') succ) by (apply Hin; eauto).
  assert (Hc2 : cell_number (with_columns (now cfg) row') "lcoe" = Some c')
    by (rewrite with_columns_lcoe; exact Hc).
  rewrite Hsplit in Hmem. apply in_app_or in Hmem.
  destruct Hmem as [Hp|[Heq|Hp]].
  - destruct (Hpre _ _ _ Hp Hc2). split; [lra|intros; lra].
  - inversion Heq; subst j. rewrite Hl0 in Hl. inversion Hl; subst row'.
    rewrite Hrow in Hc. inversion Hc; subst c'. split; [lra|lia].
  - destruct (Hpost _ _ _ Hp Hc2). split; [assumption|lia].
Qed.

(** A table with a success row holding a cost is rendered. *)
Lemma report_renders cfg results j row q :
  results !! j = Some row -> is_success row = true ->
  cell_number row "lcoe" = Some q ->
  exists n best raw pareto, report cfg results = Rendered n best raw pareto.
Proof.
  intros Hl Hs Hc. unfold report.
  pose proof (succ_idxmin_loc (now cfg) results) as Hloc.
  pose proof (succ_In (now cfg) results) as Hin.
  cbv zeta in Hloc.
  set (succ := List.filter _ (raw_table (now cfg) results)) in *.
  assert (Hmem : In (j, with_columns (now cfg) row) succ) by (apply Hin; eauto).
  destruct (idxmin_from_is_Some "lcoe" succ None) as [[i c] Hidx].
  { right. exists j, (with_columns (now cfg) row), q.
    split; [assumption|]. rewrite with_columns_lcoe. assumption. }
  destruct (Hloc i c Hidx) as (pre & best & post & _ & _ & Hfound & _).
  unfold idxmin. rewrite Hidx. simpl. rewrite Hfound.
  destruct succ; [destruct Hmem|]. eauto.
Qed.

Lemma is_success_status row :
  is_success row = true <-> row !! "status" = Some (VStr "success").
Proof.
  unfold is_success. destruct (row !! "status") as [[z|q|s|]|]; simpl;
    split; intros Hx; try discriminate Hx.
  - apply String.eqb_eq in Hx. subst. reflexivity.
  - inversion Hx. reflexivity.
Qed.

(** A table without success stops the script. *)
Lemma report_no_success cfg results :
  (forall row, In row results -> row !! "status" <> Some (VStr "success")) ->
  report cfg results = Stopped "All cases failed".
Proof.
  intros Hnone. unfold report.
  pose proof (succ_In (now cfg) results) as Hin.
  set (succ := List.filter _ (raw_table (now cfg) results)) in *.
  destruct succ as [|[j r] others]; [reflexivity|].
  destruct (proj1 (Hin j r) (or_introl eq_refl)) as (row & Hl & _ & Hs).
  apply is_success_status in Hs.
  apply list_elem_of_lookup_2, list_elem_of_In in Hl.
  destruct (Hnone row Hl Hs).
Qed.

Lemma script_reports cfg picks cases w results w' :
  build_cases cfg = inr cases ->
  run_threads cfg picks cases w = (inr results, w') ->
  script cfg picks w = (report cfg results, w').
Proof. intros Hb Hr. unfold script. rewrite Hb, Hr. reflexivity. Qed.

(** C6: when no row of the finished table has status [success], the
    script stops with the error [All cases failed]: nothing is rendered,
    no best row exists, whatever error rows the table holds. *)
Theorem C6_no_success_fails_the_run cfg picks cases w results w' :
  build_cases cfg = inr cases ->
  run_threads cfg picks cases w = (inr results, w') ->
  (forall row, In row results -> row !! "status" <> Some (VStr "success")) ->
  report cfg results = Stopped "All cases failed" /\
  script cfg picks w = (Stopped "All cases failed", w') /\
  forall n best raw pareto, fst (script cfg picks w) <> Rendered n best raw pareto.
Proof.
  intros Hb Hr Hnone.
  pose proof (report_no_success cfg results Hnone) as Hrep.
  pose proof (script_reports cfg picks cases w results w' Hb Hr) as Hscript.
  rewrite Hrep in Hscript.
  split; [assumption|]. split; [assumption|].
  intros n best raw pareto. rewrite Hscript. discriminate.
Qed.

(** A success row of a worker holds its levelized cost. *)
Lemma evaluates_to_success_cost cost case row :
  evaluates_to cost case row -> row !! "status" = Some (VStr "success") ->
  exists c, cell_number row "lcoe" = Some c.
Proof.
  intros (w1 & w2 & Hw) Hs. unfold worker in Hw. apply run_case_row in Hw.
  destruct Hw as [(spec & lcoe & rp & ->)|(reason & ->)].
  - exists lcoe. unfold cell_number.
    destruct (success_row_lookup case spec lcoe rp) as (_ & -> & _). reflexivity.
  - destruct (error_row_lookup case ("error: " +:+ reason)) as (Hst & _).
    rewrite Hst in Hs. inversion Hs.
Qed.


End Aggregation.

(** ** The profile cache *)

Section Cache.
Context `{Collaborators}.

Implicit Types (w : world) (la lo : pyval) (v : SolarDF).

Lemma py_eqb_refl (x : pyval) : py_eqb x x = true.
Proof.
  destruct x as [z|q|s|]; simpl.
  - apply Z.eqb_refl.
  - apply Qeq_bool_iff. reflexivity.
  - apply String.eqb_refl.
  - reflexivity.
Qed.

Lemma lru_take_key la lo (l : list (pyval * pyval * SolarDF)) entry rest :
  lru_take la lo l = Some (entry, rest) -> key_eqb la lo entry = true.
Proof.
  revert entry rest. induction l as [|x l IH]; intros entry rest; simpl; [discriminate|].
  destruct (key_eqb la lo x) eqn:Hk.
  - intros Heq. inversion Heq; subst. exact Hk.
  - destruct (lru_take la lo l) as [[found rest']|]; [|discriminate].
    intros Heq. inversion Heq; subst. eapply IH. reflexivity.
Qed.

Lemma cached_front la lo entry rest evs :
  key_eqb la lo entry = true ->
  cached la lo (World _ (entry :: rest) evs) entry.2.
Proof.
  intros Hk. exists entry, rest. simpl. rewrite Hk. split; reflexivity.
Qed.

(** A hit: the stored value, no call to the collaborator. *)
Lemma solar_ac_cached_hit la lo w v :
  cached la lo w v ->
  exists w1, solar_ac_cached la lo w = (Ok v, w1) /\
             events w1 = events w /\ cached la lo w1 v.
Proof.
  intros (entry & rest & Htake & <-). unfold solar_ac_cached. rewrite Htake.
  eexists. split; [reflexivity|]. split; [reflexivity|].
  apply cached_front. eapply lru_take_key. exact Htake.
Qed.

Lemma fetch_count_app evs ev :
  fetch_count (evs ++ [ev]) =
  (fetch_count evs + match ev with EvFetch _ _ => 1 | _ => 0 end)%nat.
Proof.
  unfold fetch_count. rewrite List.filter_app, length_app. f_equal.
  destruct ev; reflexivity.
Qed.



(** The world after the [try] body is the world after the cache lookup. *)
Lemma run_case_body_world cost case w la lo :
  case !! "lat" = Some la -> case !! "long" = Some lo ->
  snd (run_case_body cost case w) = snd (solar_ac_cached la lo w).
Proof.
  intros Hla Hlo. unfold run_case_body, bind, lift, ret, dict_item.
  rewrite Hla, Hlo. destruct (solar_ac_cached la lo w) as [[df|e] w1]; [|reflexivity].
  simpl.
  repeat match goal with
         | |- context [match ?x with _ => _ end] => destruct x; simpl; try reflexivity
         end.
Qed.

Lemma run_case_world cost case w la lo :
  case !! "lat" = Some la -> case !! "long" = Some lo ->
  snd (run_case cost case w) = w \/
  snd (run_case cost case w) = snd (solar_ac_cached la lo w).
Proof.
  intros Hla Hlo. rewrite run_case_unfold.
  destruct (validate_case_inputs case) as [msg|e]; [|left; reflexivity].
  destruct (String.eqb msg ""); [|left; reflexivity].
  right. rewrite <- (run_case_body_world cost case w la lo Hla Hlo).
  destruct (run_case_body cost case w) as [[row|e] w1]; reflexivity.
Qed.

Section SharedKey.
Variables (la lo : pyval) (df : SolarDF) (base : nat).
Hypothesis fetch_returns : get_solar_ac_dataframe la lo = Ok df.




End SharedKey.


End Cache.

(** ** The Pareto frontier *)

Section Pareto.

Implicit Types (a b p : ParetoPoint) (l : list ParetoPoint).

Lemma before_iff a b :
  before a b = true <->
  (cost a < cost b)%Q \/ ((cost a == cost b)%Q /\ (renewable b <= renewable a)%Q).
Proof.
  unfold before.
  rewrite orb_true_iff, andb_true_iff, Qlt_bool_iff, Qeq_bool_iff, Qle_bool_iff.
  reflexivity.
Qed.

Lemma before_total a b : before_rel a b \/ before_rel b a.
Proof.
  unfold before_rel. rewrite !before_iff.
  destruct (Q_dec (cost a) (cost b)) as [[Hlt|Hgt]|Heq]; [left; left; exact Hlt|right; left; exact Hgt|].
  destruct (Qlt_le_dec (renewable a) (renewable b)) as [Hr|Hr].
  - right. right. split; [symmetry; exact Heq|lra].
  - left. right. split; assumption.
Qed.

Lemma before_trans a b c : before_rel a b -> before_rel b c -> before_rel a c.
Proof.
  unfold before_rel. rewrite !before_iff.
  intros [Hab|[Hab Hrab]] [Hbc|[Hbc Hrbc]].
  - left. lra.
  - left. lra.
  - left. lra.
  - right. split; lra.
Qed.

Lemma insert_sorted_In p l x :
  In x (insert_sorted p l) <-> x = p \/ In x l.
Proof.
  induction l as [|q rest IH]; simpl.
  - intuition.
  - destruct (before p q); simpl; [intuition|]. rewrite IH. intuition.
Qed.

Lemma insert_sorted_sorted p l :
  StronglySorted before_rel l -> StronglySorted before_rel (insert_sorted p l).
Proof.
  induction 1 as [|q rest Hs IH Hall]; simpl.
  - repeat constructor.
  - destruct (before p q) eqn:Hpq.
    + constructor; [constructor; assumption|].
      constructor; [exact Hpq|].
      rewrite List.Forall_forall in *. intros x Hx.
      eapply before_trans; [exact Hpq|apply Hall, Hx].
    + constructor; [exact IH|].
      rewrite List.Forall_forall in *. intros x Hx.
      apply insert_sorted_In in Hx. destruct Hx as [->|Hx]; [|apply Hall, Hx].
      destruct (before_total q p) as [Hqp|Hqp]; [exact Hqp|].
      unfold before_rel in Hqp. congruence.
Qed.

Lemma sort_points_sorted l : StronglySorted before_rel (sort_points l).
Proof.
  induction l as [|p rest IH]; simpl; [constructor|].
  apply insert_sorted_sorted, IH.
Qed.

Lemma sort_points_In l x : In x (sort_points l) <-> In x l.
Proof.
  induction l as [|p rest IH]; simpl; [reflexivity|].
  rewrite insert_sorted_In, IH. intuition.
Qed.

Lemma skyline_In running l x : In x (skyline running l) -> In x l.
Proof.
  revert running. induction l as [|p rest IH]; intros running; simpl; [auto|].
  destruct running as [m|]; [destruct (Qlt_bool m (renewable p))|]; simpl;
    intros Hx; try (destruct Hx as [->|Hx]; [left; reflexivity|]);
    right; eapply IH; exact Hx.
Qed.

(** Everything the sweep keeps is above the running maximum. *)
Lemma skyline_above m l x :
  In x (skyline (Some m) l) -> (m < renewable x)%Q.
Proof.
  revert m. induction l as [|p rest IH]; intros m; simpl; [intros []|].
  destruct (Qlt_bool m (renewable p)) eqn:Hlt.
  - apply Qlt_bool_iff in Hlt. intros [->|Hx]; [exact Hlt|].
    specialize (IH _ Hx). lra.
  - apply IH.
Qed.

(** On a sorted list the sweep keeps a staircase: cost and renewable
    fraction both strictly increase. *)
Lemma skyline_staircase running l :
  StronglySorted before_rel l -> StronglySorted below (skyline running l).
Proof.
  intros Hs. revert running.
  induction Hs as [|p rest Hs IH Hall]; intros running; simpl; [constructor|].
  assert (Hkeep : StronglySorted below (p :: skyline (Some (renewable p)) rest)).
  { constructor; [apply IH|].
    rewrite List.Forall_forall in *. intros x Hx.
    pose proof (skyline_above _ _ _ Hx) as Hr.
    apply skyline_In in Hx. specialize (Hall x Hx).
    unfold before_rel in Hall. apply before_iff in Hall.
    split; [|exact Hr]. destruct Hall as [Hc|[_ Hle]]; [exact Hc|lra]. }
  destruct running as [m|]; [destruct (Qlt_bool m (renewable p))|]; auto.
Qed.

Lemma StronglySorted_related {A} (R : A -> A -> Prop) (l : list A) x y :
  StronglySorted R l -> In x l -> In y l -> x = y \/ R x y \/ R y x.
Proof.
  induction 1 as [|z rest Hs IH Hall]; simpl; [intros []|].
  rewrite List.Forall_forall in Hall.
  intros [->|Hx] [->|Hy]; auto.
Qed.

Lemma frontier_staircase results : StronglySorted below (frontier results).
Proof. apply skyline_staircase, sort_points_sorted. Qed.

Lemma frontier_origin results p :
  In p (frontier results) ->
  exists row, In row results /\ is_success row = true /\
              pareto_point row = Some p /\ point_row p = row.
Proof.
  intros Hp. apply skyline_In in Hp. apply (proj1 (sort_points_In _ _)) in Hp.
  apply list_elem_of_In, list_elem_of_omap in Hp.
  destruct Hp as (row & Hrow & Hpt). exists row.
  split; [apply list_elem_of_In, Hrow|].
  unfold pareto_point in *. destruct (is_success row); [|discriminate].
  destruct (cell_number row "lcoe"), (cell_number row "renewable_percentage");
    try discriminate.
  inversion Hpt; subst. auto.
Qed.

(** C8: no point reported in the frontier dominates another reported
    point; the frontier is the skyline sweep of the success points sorted
    by cost, it comes out by ascending cost, and each of its points is a
    success row of the results. *)
Theorem C8_frontier_points_do_not_dominate_each_other
    (results : list (gmap string pyval)) :
  (forall a b, In a (frontier results) -> In b (frontier results) -> ~ dominates a b) /\
  StronglySorted (fun a b => (cost a <= cost b)%Q) (frontier results) /\
  frontier results = skyline None (sort_points (omap pareto_point results)) /\
  process_ensemble_data results = map point_row (frontier results) /\
  (forall p, In p (frontier results) ->
     exists row, In row results /\ is_success row = true /\
                 pareto_point row = Some p /\ point_row p = row).
Proof.
  pose proof (frontier_staircase results) as Hstairs.
  split; [|split; [|split; [reflexivity|split; [reflexivity|apply frontier_origin]]]].
  - intros a b Ha Hb (Hc & Hr & Hstrict).
    destruct (StronglySorted_related below _ a b Hstairs Ha Hb)
      as [->|[[Hlt1 Hlt2]|[Hlt1 Hlt2]]]; lra.
  - revert Hstairs. generalize (frontier results).
    induction 1 as [|p rest Hs IH Hall]; constructor; [exact IH|].
    rewrite List.Forall_forall in *. intros x Hx. destruct (Hall x Hx). lra.
Qed.

End Pareto.

(** * The demo sweep, run *)

Example validate_load_only :
  validate_case_inputs (<["datacenter_load_mw" := VInt 100]> ∅) = Ok "".
Proof. reflexivity. Qed.

Example validate_load_checked_first :
  validate_case_inputs (<["bess_max_power_mw" := VInt (-1)]> ∅)
  = Ok "invalid: datacenter_load_mw <= 0".
Proof. reflexivity. Qed.

Example py_range_scenario : py_range 0 100 50 = Ok [0; 50].
Proof. reflexivity. Qed.

Example py_range_default_generators : py_range 0 125 25 = Ok [0; 25; 50; 75; 100].
Proof. reflexivity. Qed.

Example py_range_stop_not_reached : py_range 0 101 50 = Ok [0; 50; 100].
Proof. reflexivity. Qed.

Example py_range_backwards_is_empty : py_range 5 0 1 = Ok [].
Proof. reflexivity. Qed.

Example zero_energy_message :
  except_status (ValueError "Lifetime energy is ZERO") = "error: zero energy".
Proof. reflexivity. Qed.

Example zero_division_is_not_zero_energy :
  except_status (ValueError "float division by zero") = "error: float division by zero".
Proof. reflexivity. Qed.

Example zero_energy_needs_a_ValueError :
  except_status (OtherException "Zero energy") = "error: Zero energy".
Proof. reflexivity. Qed.

Example missing_key_message : except_status (KeyError "lat") = "error: 'lat'".
Proof. reflexivity. Qed.

Example as_completed_picks :
  as_completed [3; 0; 1]%nat [10; 11; 12; 13; 14] = [13; 10; 12; 11; 14].
Proof. reflexivity. Qed.




Lemma C2_witness :
  build_cases demo_config = inr demo_cases /\
  run_threads demo_config [1%nat] demo_cases demo_world
  = (inr (demo_table [1%nat]), demo_final [1%nat]) /\
  length (demo_table [1%nat]) = (2 * 2 * 1)%nat.
Proof.
  split; [reflexivity|]. split; [reflexivity|].
  destruct (C2_table_length_is_sweep_size demo_config [1%nat] demo_world
              demo_cases eq_refl)
    as (sv & bv & gv & Hsv & Hbv & Hgv & _ & Htable & _).
  destruct (Htable _ _ eq_refl) as [Hlen _].
  vm_compute in Hsv, Hbv, Hgv.
  inversion Hsv; inversion Hbv; inversion Hgv; subst. exact Hlen.
Defined.

Lemma C3_witness :
  @run_case demo tt demo_case_ok demo_world = (Ok demo_row_ok, demo_world_fetched) /\
  (present demo_row_ok "lcoe" /\ present demo_row_ok "renewable_percentage"
   <-> demo_row_ok !! "status" = Some (VStr "success")).
Proof.
  split; [reflexivity|].
  exact (proj1 (@C3_objectives_iff_success demo tt demo_case_ok demo_world
                  demo_row_ok demo_world_fetched eq_refl)).
Defined.


Lemma C5_witness :
  dc_load demo_config_no_load <= 0 /\
  script demo_config_no_load [] demo_world
  = (Stopped (validation_message ["datacenter_load_mw must be > 0"]), demo_world) /\
  py_range (solar_start demo_config_empty) (solar_stop demo_config_empty)
           (solar_step demo_config_empty) = Ok [] /\
  script demo_config_empty [] demo_world = (Stopped empty_sweep_message, demo_world).
Proof.
  destruct (C5_validation_and_empty_sweep_abort demo_config_no_load [] demo_world)
    as (Hbad & _ & _).
  destruct (C5_validation_and_empty_sweep_abort demo_config_empty [] demo_world)
    as (_ & Hempty & _).
  split; [discriminate|].
  split; [apply Hbad; left; discriminate|].
  split; [reflexivity|].
  apply Hempty; try reflexivity. left. reflexivity.
Defined.

Lemma C6_witness :
  build_cases demo_config_dark = inr [demo_case_dark] /\
  run_threads demo_config_dark [] [demo_case_dark] demo_world
  = (inr [demo_row_dark], demo_final_dark) /\
  (forall row, In row [demo_row_dark] -> row !! "status" <> Some (VStr "success")) /\
  script demo_config_dark [] demo_world = (Stopped "All cases failed", demo_final_dark).
Proof.
  assert (Hnone : forall row, In row [demo_row_dark] ->
                              row !! "status" <> Some (VStr "success")).
  { intros row [<-|[]]. discriminate. }
  split; [reflexivity|]. split; [reflexivity|]. split; [exact Hnone|].
  exact (proj1 (proj2 (C6_no_success_fails_the_run demo_config_dark []
                         [demo_case_dark] demo_world [demo_row_dark] demo_final_dark
                         eq_refl eq_refl Hnone))).
Defined.

Lemma C7_witness :
  max_conc demo_config_no_worker < 1 /\
  exists o,
    script demo_config_no_worker [] demo_world = (o, demo_world) /\
    (forall n best raw pareto, o <> Rendered n best raw pareto) /\
    (forall cases, build_cases demo_config_no_worker = inr cases ->
       o = Uncaught (ValueError "max_workers must be greater than 0")).
Proof.
  split; [reflexivity|].
  apply (C7_max_conc_below_one_rejected demo_config_no_worker [] demo_world).
  reflexivity.
Defined.

Lemma C8_witness :
  length (frontier (demo_table [])) = 2%nat /\
  forall a b, In a (frontier (demo_table [])) -> In b (frontier (demo_table [])) ->
              ~ dominates a b.
Proof.
  split; [reflexivity|].
  exact (proj1 (C8_frontier_points_do_not_dominate_each_other (demo_table []))).
Defined.


Lemma C10_witness :
  demo_case_no_load !! "datacenter_load_mw" = None /\
  validate_case_inputs demo_case_no_load = Ok "invalid: datacenter_load_mw <= 0" /\
  demo_case_no_solar !! "solar_pv_capacity_mw" = None /\
  validate_case_inputs demo_case_no_solar <> Ok "invalid: solar_pv_capacity_mw < 0".
Proof.
  destruct (@C10_validate_order_and_defaults demo) as (_ & Hload & Hcap).
  split; [reflexivity|]. split; [apply Hload; reflexivity|].
  split; [reflexivity|].
  apply (Hcap demo_case_no_solar "solar_pv_capacity_mw" py_lt0
              "invalid: solar_pv_capacity_mw < 0");
    [right; left; reflexivity|discriminate|reflexivity].
Defined.

(** * Further properties *)

(** ** The sweep and its cases *)

Section SweepGrid.
Context `{Collaborators}.

Implicit Types (cfg : config) (case : gmap string pyval).

Lemma py_range_values start stop step vals :
  0 < step -> py_range start stop step = Ok vals ->
  vals = map (fun i => start + Z.of_nat i * step)
             (seq 0 (Z.to_nat (if start <? stop
                               then (stop - start - 1) / step + 1 else 0))).
Proof.
  intros Hpos. unfold py_range.
  destruct (Z.eqb_spec step 0); [lia|].
  destruct (Z.ltb_spec 0 step); [|lia].
  intros Heq. inversion Heq. reflexivity.
Qed.

Lemma py_range_In start stop step vals x :
  0 < step -> py_range start stop step = Ok vals ->
  In x vals <-> on_grid start stop step x.
Proof.
  intros Hpos Hr. rewrite (py_range_values _ _ _ _ Hpos Hr).
  rewrite in_map_iff. unfold on_grid. split.
  - intros (i & <- & Hi). apply in_seq in Hi.
    destruct (Z.ltb_spec start stop) as [Hlt|Hge]; [|simpl in Hi; lia].
    assert (Hq : 0 <= (stop - start - 1) / step) by (apply Z.div_pos; lia).
    assert (Hm : step * ((stop - start - 1) / step) <= stop - start - 1)
      by (apply Z.mul_div_le; lia).
    assert (Hi' : Z.of_nat i <= (stop - start - 1) / step) by lia.
    split; [nia|].
    replace (start + Z.of_nat i * step - start) with (Z.of_nat i * step) by ring.
    apply Z.mod_mul. lia.
  - intros [[Hlo Hhi] Hmod].
    assert (Hx : x - start = step * ((x - start) / step))
      by (apply Z_div_exact_full_2; lia).
    assert (Hk : 0 <= (x - start) / step) by (apply Z.div_pos; lia).
    assert (Hle : (x - start) / step <= (stop - start - 1) / step)
      by (apply Z.div_le_mono; lia).
    exists (Z.to_nat ((x - start) / step)). split; [lia|].
    apply in_seq. destruct (Z.ltb_spec start stop); lia.
Qed.

Lemma py_range_nil_iff start stop step vals :
  0 < step -> py_range start stop step = Ok vals ->
  vals = [] <-> stop <= start.
Proof.
  intros Hpos Hr. split.
  - intros ->. destruct (Z.le_gt_cases stop start) as [|Hlt]; [assumption|].
    assert (Hin : In start []).
    { apply (py_range_In start stop step [] start Hpos Hr).
      unfold on_grid. rewrite Z.sub_diag, Z.mod_0_l by lia. lia. }
    destruct Hin.
  - intros Hle. destruct vals as [|x rest]; [reflexivity|].
    assert (Hin : In x (x :: rest)) by (left; reflexivity).
    apply (py_range_In start stop step _ x Hpos Hr) in Hin.
    unfold on_grid in Hin. lia.
Qed.

Lemma py_range_sorted start stop step vals :
  0 < step -> py_range start stop step = Ok vals -> StronglySorted Z.lt vals.
Proof.
  intros Hpos Hr. rewrite (py_range_values _ _ _ _ Hpos Hr).
  apply (StronglySorted_fmap _ lt Z.lt); [intros i j Hij; nia|].
  generalize (Z.to_nat (if start <? stop then (stop - start - 1) / step + 1 else 0)).
  generalize 0%nat. intros a n. revert a.
  induction n as [|n IH]; intros a; simpl; constructor; [apply IH|].
  apply List.Forall_forall. intros j Hj. apply in_seq in Hj. lia.
Qed.

Lemma validation_message_not_empty_sweep errs :
  validation_message errs <> empty_sweep_message.
Proof. unfold validation_message, empty_sweep_message. simpl. discriminate. Qed.

(** X1: the script stops with the empty-sweep message exactly when the
    load and the three steps are positive and one of the three ranges has
    its stop at or below its start. *)
Theorem X1_empty_sweep_iff cfg :
  build_cases cfg = inl (Stopped empty_sweep_message) <->
  (0 < dc_load cfg /\ 0 < solar_step cfg /\ 0 < bess_step cfg /\ 0 < gen_step cfg) /\
  (solar_stop cfg <= solar_start cfg \/ bess_stop cfg <= bess_start cfg \/
   gen_stop cfg <= gen_start cfg).
Proof.
  destruct (validation_errors cfg) as [|err errs] eqn:Herrs.
  - pose proof (proj1 (validation_errors_nil cfg) Herrs) as (Hl & Hs & Hb & Hg).
    destruct (py_range_positive_step (solar_start cfg) (solar_stop cfg) _ Hs) as [sv Hsv].
    destruct (py_range_positive_step (bess_start cfg) (bess_stop cfg) _ Hb) as [bv Hbv].
    destruct (py_range_positive_step (gen_start cfg) (gen_stop cfg) _ Hg) as [gv Hgv].
    pose proof (py_range_nil_iff _ _ _ _ Hs Hsv) as Hsn.
    pose proof (py_range_nil_iff _ _ _ _ Hb Hbv) as Hbn.
    pose proof (py_range_nil_iff _ _ _ _ Hg Hgv) as Hgn.
    unfold build_cases. rewrite Herrs, Hsv, Hbv, Hgv.
    destruct sv as [|s0 sv]; [|destruct bv as [|b0 bv]; [|destruct gv as [|g0 gv]]];
      simpl; split; intros Hx; try (split; [auto|]); try reflexivity; try tauto.
    + discriminate Hx.
    + destruct Hx as [_ [Hx|[Hx|Hx]]];
        [apply Hsn in Hx|apply Hbn in Hx|apply Hgn in Hx]; discriminate Hx.
  - split.
    + unfold build_cases. rewrite Herrs. intros Heq.
      inversion Heq as [Hmsg]; destruct (validation_message_not_empty_sweep _ Hmsg).
    + intros [Hpos _]. apply validation_errors_nil in Hpos. congruence.
Qed.

Lemma product3_In {A B C} (xs : list A) (ys : list B) (zs : list C) x y z :
  In (x, y, z) (product3 xs ys zs) <-> In x xs /\ In y ys /\ In z zs.
Proof.
  unfold product3. rewrite in_flat_map. split.
  - intros (x' & Hx & Hin). apply in_flat_map in Hin.
    destruct Hin as (y' & Hy & Hin). apply in_map_iff in Hin.
    destruct Hin as (z' & Heq & Hz). inversion Heq; subst. auto.
  - intros (Hx & Hy & Hz). exists x. split; [assumption|].
    apply in_flat_map. exists y. split; [assumption|].
    apply in_map_iff. exists z. auto.
Qed.

(** X2: the generated cases are exactly the configurations whose solar,
    storage and generator capacities each lie on the grid of their range:
    start, start + step, ... strictly below stop. *)
Theorem X2_cases_are_the_grid cfg cases case :
  build_cases cfg = inr cases ->
  In case cases <->
  exists s b g,
    case = make_case cfg s b g /\
    on_grid (solar_start cfg) (solar_stop cfg) (solar_step cfg) s /\
    on_grid (bess_start cfg) (bess_stop cfg) (bess_step cfg) b /\
    on_grid (gen_start cfg) (gen_stop cfg) (gen_step cfg) g.
Proof.
  intros Hb. apply build_cases_inr in Hb.
  destruct Hb as (Hvalid & sv & bv & gv & Hsv & Hbv & Hgv & _ & _ & _ & ->).
  apply validation_errors_nil in Hvalid. destruct Hvalid as (_ & Hs & Hbs & Hg).
  rewrite in_map_iff. split.
  - intros ([[s b] g] & <- & Hin). apply product3_In in Hin.
    destruct Hin as (Hins & Hinb & Hing). exists s, b, g.
    split; [reflexivity|].
    split; [apply (py_range_In _ _ _ sv); assumption|].
    split; [apply (py_range_In _ _ _ bv); assumption|].
    apply (py_range_In _ _ _ gv); assumption.
  - intros (s & b & g & -> & Hgs & Hgb & Hgg). exists (s, b, g).
    split; [reflexivity|]. apply product3_In.
    split; [apply (py_range_In _ _ _ sv _ Hs Hsv); assumption|].
    split; [apply (py_range_In _ _ _ bv _ Hbs Hbv); assumption|].
    apply (py_range_In _ _ _ gv _ Hg Hgv); assumption.
Qed.

Lemma product3_sorted (xs ys zs : list Z) :
  StronglySorted Z.lt xs -> StronglySorted Z.lt ys -> StronglySorted Z.lt zs ->
  StronglySorted lex_lt (product3 xs ys zs).
Proof.
  intros Hx Hy Hz. unfold product3.
  induction Hx as [|x xs Hxs IH Hall]; simpl; [constructor|].
  apply StronglySorted_app_2; [| |exact IH].
  - intros t1 t2 Ht1 Ht2.
    apply list_elem_of_In, in_flat_map in Ht1. destruct Ht1 as (y & _ & Ht1).
    apply in_map_iff in Ht1. destruct Ht1 as (z & <- & _).
    apply list_elem_of_In, in_flat_map in Ht2. destruct Ht2 as (x' & Hx' & Ht2).
    apply in_flat_map in Ht2. destruct Ht2 as (y' & _ & Ht2).
    apply in_map_iff in Ht2. destruct Ht2 as (z' & <- & _).
    left. simpl. rewrite List.Forall_forall in Hall. apply Hall, Hx'.
  - clear IH Hall Hxs. induction Hy as [|y ys Hys IHy Hally]; simpl; [constructor|].
    apply StronglySorted_app_2; [| |exact IHy].
    + intros t1 t2 Ht1 Ht2.
      apply list_elem_of_In, in_map_iff in Ht1. destruct Ht1 as (z & <- & _).
      apply list_elem_of_In, in_flat_map in Ht2. destruct Ht2 as (y' & Hy' & Ht2).
      apply in_map_iff in Ht2. destruct Ht2 as (z' & <- & _).
      right. simpl. split; [reflexivity|]. left.
      rewrite List.Forall_forall in Hally. apply Hally, Hy'.
    + apply (StronglySorted_fmap _ Z.lt lex_lt); [|exact Hz].
      intros z z' Hzz. right. simpl. split; [reflexivity|].
      right. split; [reflexivity|exact Hzz].
Qed.

Lemma capacities_make_case cfg s b g :
  capacities (make_case cfg s b g) = Some (s, b, g).
Proof. unfold capacities, make_case. by simplify_map_eq. Qed.

Lemma build_cases_sorted cfg cases :
  build_cases cfg = inr cases -> StronglySorted case_before cases.
Proof.
  intros Hb. apply build_cases_inr in Hb.
  destruct Hb as (Hvalid & sv & bv & gv & Hsv & Hbv & Hgv & _ & _ & _ & ->).
  apply validation_errors_nil in Hvalid. destruct Hvalid as (_ & Hs & Hbs & Hg).
  apply (StronglySorted_fmap _ lex_lt case_before).
  - intros [[s b] g] [[s' b'] g'] Hlt. unfold case_before.
    rewrite !capacities_make_case. exact Hlt.
  - apply product3_sorted;
      [apply (py_range_sorted _ _ _ _ Hs Hsv)|apply (py_range_sorted _ _ _ _ Hbs Hbv)
      |apply (py_range_sorted _ _ _ _ Hg Hgv)].
Qed.

Lemma StronglySorted_lookup_lt {A} (R : A -> A -> Prop) (l : list A) i j x y :
  StronglySorted R l -> l !! i = Some x -> l !! j = Some y -> (i < j)%nat -> R x y.
Proof.
  intros Hs. revert i j. induction Hs as [|a l Hs IH Hall]; intros i j Hi Hj Hij.
  - discriminate Hi.
  - destruct j as [|j]; [lia|]. destruct i as [|i]; simpl in *.
    + inversion Hi; subst. rewrite List.Forall_forall in Hall.
      apply Hall. apply list_elem_of_In. eapply list_elem_of_lookup_2. exact Hj.
    + apply (IH i j); [assumption|assumption|lia].
Qed.

(** X3: the generated cases come in generation order: solar capacity
    varies slowest, generator capacity fastest, each dimension ascending,
    so that the list is strictly increasing in lexicographic order of
    (solar, storage, generator). *)
Theorem X3_cases_in_lexicographic_order cfg cases :
  build_cases cfg = inr cases ->
  StronglySorted case_before cases /\
  forall i j ci cj, cases !! i = Some ci -> cases !! j = Some cj ->
    (i < j)%nat -> case_before ci cj.
Proof.
  intros Hb. pose proof (build_cases_sorted cfg cases Hb) as Hs.
  split; [exact Hs|].
  intros i j ci cj Hi Hj Hij.
  exact (StronglySorted_lookup_lt case_before cases i j ci cj Hs Hi Hj Hij).
Qed.

Lemma StronglySorted_irrefl_NoDup {A} (R : A -> A -> Prop) (l : list A) :
  (forall x, ~ R x x) -> StronglySorted R l -> NoDup l.
Proof.
  intros Hirr. induction 1 as [|x l Hs IH Hall]; constructor; [|exact IH].
  intros Hin. apply list_elem_of_In in Hin.
  rewrite List.Forall_forall in Hall. exact (Hirr x (Hall x Hin)).
Qed.

(** X4: no configuration is generated twice. *)
Theorem X4_cases_pairwise_distinct cfg cases :
  build_cases cfg = inr cases -> NoDup cases.
Proof.
  intros Hb. apply (StronglySorted_irrefl_NoDup case_before).
  - intros case. unfold case_before, lex_lt.
    destruct (capacities case) as [[[s b] g]|]; simpl; lia.
  - apply (build_cases_sorted cfg). exact Hb.
Qed.

End SweepGrid.

(** ** The rows of [run_case] *)

Section CaseRows.
Context `{Collaborators}.

Implicit Types (cfg : config) (case row : gmap string pyval) (w : world).

Lemma added_keys_lookup_ne case k v1 v2 v3 v4 :
  k ∉ added_keys ->
  <["status" := v1]> (<["renewable_percentage" := v2]>
     (<["lcoe" := v3]> (<["system_spec" := v4]> case))) !! k = case !! k.
Proof.
  intros Hk. unfold added_keys in Hk.
  rewrite !lookup_insert_ne; [reflexivity| | | |]; intros <-; apply Hk; set_solver.
Qed.

Lemma added_keys_lookup case k v1 v2 v3 v4 :
  k ∈ added_keys ->
  is_Some (<["status" := v1]> (<["renewable_percentage" := v2]>
     (<["lcoe" := v3]> (<["system_spec" := v4]> case))) !! k).
Proof.
  intros Hk. unfold added_keys in Hk.
  repeat (apply elem_of_cons in Hk; destruct Hk as [->|Hk]);
    [by simplify_map_eq..|]. inversion Hk.
Qed.

Lemma added_keys_dom case v1 v2 v3 v4 :
  dom (<["status" := v1]> (<["renewable_percentage" := v2]>
     (<["lcoe" := v3]> (<["system_spec" := v4]> case))))
  = dom case ∪ list_to_set added_keys.
Proof.
  rewrite !dom_insert_L. apply set_eq. intros k.
  rewrite !elem_of_union, !elem_of_singleton, elem_of_list_to_set.
  unfold added_keys. rewrite !elem_of_cons, elem_of_nil. tauto.
Qed.

(** X5: a row returned by [run_case] is its case with four fields added:
    every other field of the case is kept unchanged, the four fields
    [system_spec], [lcoe], [renewable_percentage] and [status] are always
    there, and the row has no further field. *)
Theorem X5_row_extends_case cost case w row w' :
  run_case cost case w = (Ok row, w') ->
  (forall k, k ∉ added_keys -> row !! k = case !! k) /\
  (forall k, k ∈ added_keys -> is_Some (row !! k)) /\
  dom row = dom case ∪ list_to_set added_keys.
Proof.
  intros Hrun. apply run_case_row in Hrun.
  destruct Hrun as [(spec & lcoe & rp & ->)|(reason & ->)];
    unfold success_row, error_row;
    (split; [intros k; apply added_keys_lookup_ne|]);
    (split; [intros k; apply added_keys_lookup|apply added_keys_dom]).
Qed.

(** X6: with a positive load, a generated configuration is rejected by the
    validation of [run_case] exactly when one of its capacities is
    negative; the status names the first negative capacity in the order
    solar, storage, generator, and the world is left untouched: no
    collaborator is called for a rejected case. *)
Theorem X6_negative_capacity_rejected cfg cost s b g w :
  0 < dc_load cfg ->
  (0 <= s -> 0 <= b -> 0 <= g ->
   validate_case_inputs (make_case cfg s b g) = Ok "") /\
  (s < 0 \/ b < 0 \/ g < 0 ->
   exists field,
     run_case cost (make_case cfg s b g) w
     = (Ok (error_row (make_case cfg s b g)
              ("error: invalid: " +:+ field +:+ " < 0")), w) /\
     (s < 0 -> field = "solar_pv_capacity_mw") /\
     (0 <= s -> b < 0 -> field = "bess_max_power_mw") /\
     (0 <= s -> 0 <= b -> field = "generator_capacity_mw")).
Proof.
  intros Hload.
  assert (Hval : validate_case_inputs (make_case cfg s b g) =
                 Ok (if s <? 0 then "invalid: solar_pv_capacity_mw < 0"
                     else if b <? 0 then "invalid: bess_max_power_mw < 0"
                     else if g <? 0 then "invalid: generator_capacity_mw < 0"
                     else "")).
  { unfold validate_case_inputs, dict_get0, make_case. simplify_map_eq. simpl.
    destruct (Z.leb_spec (dc_load cfg) 0); [lia|].
    destruct (s <? 0); [reflexivity|]. destruct (b <? 0); [reflexivity|].
    destruct (g <? 0); reflexivity. }
  split.
  - intros Hs Hb Hg. rewrite Hval.
    destruct (Z.ltb_spec s 0); [lia|]. destruct (Z.ltb_spec b 0); [lia|].
    destruct (Z.ltb_spec g 0); [lia|]. reflexivity.
  - intros Hneg.
    destruct (Z.ltb_spec s 0) as [Hs|Hs];
      [exists "solar_pv_capacity_mw"
      |destruct (Z.ltb_spec b 0) as [Hb|Hb];
        [exists "bess_max_power_mw"
        |destruct (Z.ltb_spec g 0) as [Hg|Hg];
          [exists "generator_capacity_mw"|lia]]];
      (split; [exact (run_case_invalid cost _ w _ Hval ltac:(discriminate))|]);
      repeat split; intros; try reflexivity; lia.
Qed.

(** X7: a case that passes the validation but has no [lat] field, or has
    [lat] but no [long], gets an error row whose status quotes the missing
    key, and the cache and the collaborators are not touched. *)
Theorem X7_missing_location_key cost case w :
  validate_case_inputs case = Ok "" ->
  (case !! "lat" = None ->
   run_case cost case w = (Ok (error_row case "error: 'lat'"), w)) /\
  (is_Some (case !! "lat") -> case !! "long" = None ->
   run_case cost case w = (Ok (error_row case "error: 'long'"), w)).
Proof.
  intros Hval. split.
  - intros Hlat. rewrite run_case_unfold, Hval. simpl.
    unfold run_case_body, bind, lift, dict_item. rewrite Hlat. reflexivity.
  - intros [la Hlat] Hlong. rewrite run_case_unfold, Hval. simpl.
    unfold run_case_body, bind, lift, dict_item. rewrite Hlat, Hlong. reflexivity.
Qed.

Ltac chain_step :=
  match goal with
  | Hb : context [match ?x with _ => _ end] |- _ =>
      let E := fresh "E" in destruct x eqn:E; simpl in Hb; try discriminate Hb
  end.

Lemma py_replace_spaces_Ok v s :
  py_replace_spaces v = Ok s -> exists t, v = VStr t /\ s = remove_spaces t.
Proof.
  destruct v; simpl; intros Heq; inversion Heq; eauto.
Qed.

Lemma run_case_body_succeeds cost case w row w1 :
  run_case_body cost case w = (Ok row, w1) ->
  exists spec lcoe rp,
    evaluation_succeeds cost case w w1 spec lcoe rp /\
    row = success_row case spec lcoe rp.
Proof.
  intros Hb. unfold run_case_body, bind, lift, ret, dict_item in Hb.
  repeat chain_step. inversion Hb; subst. clear Hb.
  match goal with
  | Hr : py_replace_spaces _ = Ok _ |- _ =>
      apply py_replace_spaces_Ok in Hr; destruct Hr as (t & -> & ->)
  end.
  simplify_eq.
  eexists _, _, _. split; [|reflexivity].
  unfold evaluation_succeeds.
  eexists _, _, _, _, _, _, _, _, _, _, _, _.
  repeat (split; [eassumption|]). reflexivity.
Qed.

(** X8: [run_case] returns a row with status [success] exactly when the
    validation accepts the case and every step of the evaluation returns;
    the row then carries the label built from the three capacities and the
    generator type without its spaces, the levelized cost computed by the
    cost model and the renewable percentage of the energy mix, and the
    world is the one left by the cache lookup. *)
Theorem X8_success_iff_every_step_returns cost case w row w1 :
  (run_case cost case w = (Ok row, w1) /\ row !! "status" = Some (VStr "success"))
  <->
  (validate_case_inputs case = Ok "" /\
   exists spec lcoe rp,
     evaluation_succeeds cost case w w1 spec lcoe rp /\
     row = success_row case spec lcoe rp).
Proof.
  split.
  - intros [Hrun Hst]. rewrite run_case_unfold in Hrun.
    destruct (validate_case_inputs case) as [msg|e]; [|discriminate].
    destruct (String.eqb msg "") eqn:Hmsg.
    + apply String.eqb_eq in Hmsg. subst msg. split; [reflexivity|].
      destruct (run_case_body cost case w) as [[r|e] w2] eqn:Hb;
        inversion Hrun; subst.
      * apply run_case_body_succeeds. exact Hb.
      * destruct (error_row_lookup case (except_status e)) as (Hs & _).
        rewrite Hs in Hst. inversion Hst as [Hstatus].
        unfold except_status in Hstatus.
        destruct e; try discriminate Hstatus.
        destruct (mentions_zero_energy _); discriminate Hstatus.
    + inversion Hrun; subst.
      destruct (error_row_lookup case ("error: " +:+ msg)) as (Hs & _).
      rewrite Hs in Hst. inversion Hst.
  - intros (Hval & spec & lcoe & rp & Hchain & ->).
    split; [|apply success_row_lookup].
    destruct Hchain as (la & lo & s & b & g & l & gt & df & pf & annual & dc & mix &
                        Hla & Hlo & Hs & Hb & Hg & Hl & Hgt & Hfetch & Hsim & Hann &
                        Hdc & Hlcoe & Hmix & Hrp & ->).
    rewrite run_case_unfold, Hval. simpl.
    unfold run_case_body, bind, lift, ret, dict_item.
    rewrite Hla, Hlo, Hfetch. simpl.
    rewrite Hs, Hb, Hg, Hl, Hsim. simpl.
    rewrite Hann, Hgt, Hdc. simpl.
    rewrite Hlcoe, Hmix. simpl. rewrite Hrp. reflexivity.
Qed.

Lemma validate_raises_TypeError case e :
  validate_case_inputs case = Raise e -> exists msg, e = TypeError msg.
Proof.
  unfold validate_case_inputs.
  assert (Hle : forall v b, py_le0 v = Raise b -> exists msg, b = TypeError msg)
    by (intros [ | | | ] b Hv; inversion Hv; eauto).
  assert (Hlt : forall v b, py_lt0 v = Raise b -> exists msg, b = TypeError msg)
    by (intros [ | | | ] b Hv; inversion Hv; eauto).
  destruct (py_le0 _) as [[|]|e1] eqn:E1; try discriminate;
    [|intros Heq; inversion Heq; subst; eauto].
  destruct (py_lt0 (dict_get0 case "solar_pv_capacity_mw")) as [[|]|e2] eqn:E2;
    try discriminate; [|intros Heq; inversion Heq; subst; eauto].
  destruct (py_lt0 (dict_get0 case "bess_max_power_mw")) as [[|]|e3] eqn:E3;
    try discriminate; [|intros Heq; inversion Heq; subst; eauto].
  destruct (py_lt0 (dict_get0 case "generator_capacity_mw")) as [[|]|e4] eqn:E4;
    try discriminate. intros Heq; inversion Heq; subst; eauto.
Qed.

Lemma run_case_raises cost case w e :
  validate_case_inputs case = Raise e -> run_case cost case w = (Raise e, w).
Proof. intros Hval. rewrite run_case_unfold, Hval. reflexivity. Qed.

Lemma collect_results_Raise {A} (futs : list (result A)) e :
  In (Raise e) futs ->
  exists e', collect_results futs = Raise e' /\ In (Raise e') futs.
Proof.
  induction futs as [|[r|e0] rest IH]; simpl; [intros []| |].
  - intros [Heq|Hin]; [discriminate|].
    destruct (IH Hin) as (e' & -> & Hin'). eauto.
  - intros _. eauto.
Qed.

(** X9: the validation runs outside the [try]: a case whose load or
    capacity is not a number makes [run_case] raise the [TypeError] of the
    comparison, before any collaborator is called; in the thread pool the
    exception comes back from [fut.result()], so that one such case among
    the submitted ones ends the run with an uncaught [TypeError] and no
    table. *)
Theorem X9_non_numeric_field_ends_the_run cfg picks cases case w e :
  0 < max_conc cfg ->
  In case cases ->
  validate_case_inputs case = Raise e ->
  (forall cost w0, run_case cost case w0 = (Raise e, w0)) /\
  exists msg w',
    run_threads cfg picks cases w = (inl (Uncaught (TypeError msg)), w').
Proof.
  intros Hconc Hin Hval.
  split; [intros cost w0; apply run_case_raises; exact Hval|].
  unfold run_threads, ThreadPoolExecutor.
  destruct (Z.leb_spec (max_conc cfg) 0); [lia|].
  destruct (run_futures _ _ w) as [futs w1] eqn:Hrun.
  apply run_futures_Forall2 in Hrun.
  assert (Hin' : In case (as_completed picks cases))
    by (apply (Permutation_in _ (Permutation_sym (as_completed_Permutation picks cases)));
        exact Hin).
  apply list_elem_of_In, list_elem_of_lookup in Hin'. destruct Hin' as [i Hi].
  destruct (Forall2_lookup_l _ _ _ _ _ Hrun Hi) as (fut & Hfut & w2 & w3 & Hw).
  unfold worker in Hw. rewrite (run_case_raises _ _ _ _ Hval) in Hw.
  inversion Hw; subst fut.
  apply list_elem_of_lookup_2, list_elem_of_In in Hfut.
  destruct (collect_results_Raise futs e Hfut) as (e' & -> & Hin').
  apply list_elem_of_In, list_elem_of_lookup in Hin'. destruct Hin' as [j Hj].
  destruct (Forall2_lookup_r _ _ _ _ _ Hrun Hj) as (c & _ & w4 & w5 & Hw').
  unfold worker in Hw'. apply run_case_raises_validation in Hw'.
  destruct Hw' as [Hraise _]. apply validate_raises_TypeError in Hraise.
  destruct Hraise as [msg ->]. eauto.
Qed.

End CaseRows.

(** ** The status of a failed evaluation *)

Section Handler.

Lemma append_String (c : ascii) (s t : string) :
  String c s +:+ t = String c (s +:+ t).
Proof. reflexivity. Qed.

Lemma prefix_spec (p s : string) :
  String.prefix p s = true <-> exists post, s = p +:+ post.
Proof.
  revert s. induction p as [|a p IH]; intros s; simpl.
  - destruct s; split; eauto.
  - destruct s as [|b s]; simpl.
    + split; [discriminate|]. intros [post Heq]. discriminate Heq.
    + destruct (ascii_dec a b) as [->|Hne].
      * rewrite IH. split; intros [post Heq]; exists post;
          rewrite append_String in *; congruence.
      * split; [discriminate|]. intros [post Heq].
        rewrite append_String in Heq. congruence.
Qed.

Lemma contains_spec (needle hay : string) :
  contains needle hay = true <-> has_substring needle hay.
Proof.
  unfold has_substring. induction hay as [|c hay IH].
  - unfold contains. rewrite orb_false_r, prefix_spec. split.
    + intros [post Heq]. exists "", post. exact Heq.
    + intros (pre & post & Heq). destruct pre; [eauto|discriminate Heq].
  - change (contains needle (String c hay))
      with (String.prefix needle (String c hay) || contains needle hay).
    rewrite orb_true_iff, prefix_spec, IH. split.
    + intros [[post Heq]|(pre & post & Heq)].
      * exists "", post. exact Heq.
      * exists (String c pre), post. rewrite append_String. congruence.
    + intros (pre & post & Heq). destruct pre as [|c' pre].
      * left. exists post. exact Heq.
      * right. exists pre, post. rewrite append_String in Heq. congruence.
Qed.

Lemma error_status_inj (x y : string) : "error: " +:+ x = "error: " +:+ y -> x = y.
Proof. intros Heq. inversion Heq as [Heq']. exact Heq'. Qed.

(** X10: the status of a failed evaluation is [error: zero energy] in two
    cases only: the exception is a [ValueError] whose message, put in lower
    case, contains [zero] and one of [energy] and [lifetime]; or the
    exception, of whatever class, prints exactly as [zero energy]. *)
Theorem X10_zero_energy_status_iff (e : pyexn) :
  except_status e = "error: zero energy" <->
  exn_str e = "zero energy" \/
  (exists msg, e = ValueError msg /\
     has_substring "zero" (lower msg) /\
     (has_substring "energy" (lower msg) \/ has_substring "lifetime" (lower msg))).
Proof.
  assert (Hmz : forall msg, mentions_zero_energy msg = true <->
            has_substring "zero" (lower msg) /\
            (has_substring "energy" (lower msg) \/ has_substring "lifetime" (lower msg))).
  { intros msg. unfold mentions_zero_energy.
    rewrite andb_true_iff, orb_true_iff, !contains_spec. reflexivity. }
  split.
  - intros Hst.
    destruct e as [msg|msg|key|msg|msg];
      try (left; apply error_status_inj; exact Hst).
    unfold except_status in Hst.
    destruct (mentions_zero_energy (exn_str (ValueError msg))) eqn:Hz.
    + right. exists msg. split; [reflexivity|]. apply Hmz. exact Hz.
    + left. apply error_status_inj. exact Hst.
  - intros [Hstr|(msg & -> & Hsub)].
    + destruct e as [msg|msg|key|msg|msg]; unfold exn_str in Hstr;
        try (subst msg; reflexivity). inversion Hstr.
    + unfold except_status. simpl. rewrite (proj2 (Hmz msg) Hsub). reflexivity.
Qed.

End Handler.

(** ** Input validation of the page *)

Section PageValidation.
Context `{Collaborators}.

(** X11: the validation of the page reports every violated input, not
    only the first: each of its four messages is listed exactly when the
    load, the solar step, the storage step or the generator step is not
    positive, and the list is empty exactly when all four are positive. *)
Theorem X11_every_violation_reported (cfg : config) :
  (In "datacenter_load_mw must be > 0" (validation_errors cfg) <-> dc_load cfg <= 0) /\
  (In "solar_step must be > 0" (validation_errors cfg) <-> solar_step cfg <= 0) /\
  (In "bess_step must be > 0" (validation_errors cfg) <-> bess_step cfg <= 0) /\
  (In "gen_step must be > 0" (validation_errors cfg) <-> gen_step cfg <= 0) /\
  (validation_errors cfg = [] <->
   0 < dc_load cfg /\ 0 < solar_step cfg /\ 0 < bess_step cfg /\ 0 < gen_step cfg).
Proof.
  split; [|split; [|split; [|split; [|apply validation_errors_nil]]]];
    unfold validation_errors;
    destruct (Z.leb_spec (dc_load cfg) 0); destruct (Z.leb_spec (solar_step cfg) 0);
    destruct (Z.leb_spec (bess_step cfg) 0); destruct (Z.leb_spec (gen_step cfg) 0);
    simpl; split; intros Hx;
    repeat match goal with
           | Hor : _ \/ _ |- _ => destruct Hor as [Hor|Hor]; try discriminate Hor
           | Hf : False |- _ => destruct Hf
           end;
    try lia; auto 6.
Qed.

End PageValidation.

(** ** The rendered rows *)

Section Rendering.
Context `{Collaborators}.

Implicit Types (cfg : config) (row case : gmap string pyval)
  (results : list (gmap string pyval)).

Lemma with_columns_timestamp now_ row :
  with_columns now_ row !! "timestamp" = Some (VStr now_).
Proof.
  unfold with_columns. apply map_lookup_filter_Some.
  split; [apply lookup_insert_eq|]. unfold cols. simpl. set_solver.
Qed.

Lemma with_columns_dropped now_ row k :
  k ∉ cols -> with_columns now_ row !! k = None.
Proof.
  intros Hk. unfold with_columns. apply map_lookup_filter_None.
  right. intros v _ Hin. exact (Hk Hin).
Qed.

Lemma run_case_row_has_columns cost cfg s b g w row w' k :
  run_case cost (make_case cfg s b g) w = (Ok row, w') ->
  k ∈ cols -> k <> "timestamp" -> is_Some (row !! k).
Proof.
  intros Hrun Hk Hne. apply run_case_row in Hrun.
  unfold cols in Hk.
  repeat (apply elem_of_cons in Hk; destruct Hk as [->|Hk]); try congruence;
    try (inversion Hk; fail);
    destruct Hrun as [(spec & lcoe & rp & ->)|(reason & ->)];
    unfold success_row, error_row, make_case; by simplify_map_eq.
Qed.

(** X12: the rendered form of a row evaluated from a generated case has
    exactly the ten columns of [cols]: the timestamp is the clock of the
    run, the nine other columns are those of the row, and the fields
    [generator_type] and [datacenter_load_mw] of the case are dropped. *)
Theorem X12_rendered_row_columns cost cfg s b g w row w' now_ :
  run_case cost (make_case cfg s b g) w = (Ok row, w') ->
  dom (with_columns now_ row) = list_to_set cols /\
  with_columns now_ row !! "timestamp" = Some (VStr now_) /\
  (forall k, k ∈ cols -> k <> "timestamp" -> with_columns now_ row !! k = row !! k) /\
  with_columns now_ row !! "generator_type" = None /\
  with_columns now_ row !! "datacenter_load_mw" = None.
Proof.
  intros Hrun.
  split; [|split; [apply with_columns_timestamp|split;
    [intros k; apply with_columns_lookup|split; apply with_columns_dropped;
       unfold cols; rewrite !not_elem_of_cons; repeat split;
       try discriminate; apply not_elem_of_nil]]].
  apply set_eq. intros k. rewrite elem_of_dom, elem_of_list_to_set. split.
  - intros [v Hv]. destruct (decide (k ∈ cols)) as [Hin|Hout]; [exact Hin|].
    rewrite (with_columns_dropped now_ row k Hout) in Hv. discriminate Hv.
  - intros Hin. destruct (decide (k = "timestamp")) as [->|Hne].
    + rewrite with_columns_timestamp. eauto.
    + rewrite with_columns_lookup by assumption.
      eapply run_case_row_has_columns; eassumption.
Qed.

Lemma raw_table_rows now_ results :
  map snd (raw_table now_ results) = map (with_columns now_) results.
Proof.
  rewrite raw_table_imap. apply list_eq. intros i.
  change (map ?f ?l) with (f <$> l).
  rewrite !list_lookup_fmap, list_lookup_imap.
  destruct (results !! i); reflexivity.
Qed.

Lemma raw_table_length now_ results :
  length (raw_table now_ results) = length results.
Proof. rewrite raw_table_imap. apply length_imap. Qed.

(** X13: when the script renders, the row count it announces is the
    number of results whatever the limit; the printed rows are the
    rendered forms of the results in table order, all of them when the
    limit is not positive and the first [limit] of them otherwise; and the
    limit changes neither the count, nor the best row, nor the frontier. *)
Theorem X13_limit_only_cuts_printed_rows cfg results n best raw pareto :
  report cfg results = Rendered n best raw pareto ->
  n = length results /\
  raw = map (with_columns (now cfg))
            (if 0 <? limit_rows cfg
             then take (Z.to_nat (limit_rows cfg)) results else results) /\
  length raw = (if 0 <? limit_rows cfg
                then Nat.min (Z.to_nat (limit_rows cfg)) (length results)
                else length results) /\
  forall limit, exists raw',
    report (with_limit cfg limit) results = Rendered n best raw' pareto.
Proof.
  unfold report. simpl.
  destruct (List.filter _ (raw_table (now cfg) results)) as [|first others];
    [discriminate|].
  destruct (idxmin "lcoe" (first :: others)) as [best_idx|]; [|discriminate].
  destruct (loc best_idx (first :: others)) as [best_row|]; [|discriminate].
  intros Heq. inversion Heq; subst n best raw pareto. clear Heq.
  assert (Hraw : map snd (if 0 <? limit_rows cfg
                          then take (Z.to_nat (limit_rows cfg)) (raw_table (now cfg) results)
                          else raw_table (now cfg) results)
                 = map (with_columns (now cfg))
                       (if 0 <? limit_rows cfg
                        then take (Z.to_nat (limit_rows cfg)) results else results)).
  { destruct (0 <? limit_rows cfg); [|apply raw_table_rows].
    change (map ?f ?l) with (f <$> l).
    rewrite !fmap_take. f_equal. apply raw_table_rows. }
  split; [apply raw_table_length|]. split; [exact Hraw|]. split.
  - rewrite Hraw, length_map.
    destruct (0 <? limit_rows cfg); [apply length_take|reflexivity].
  - intros limit. eexists. reflexivity.
Qed.

End Rendering.

(** ** The world along a run *)

Section Worlds.
Context `{Collaborators}.

Implicit Types (cfg : config) (case : gmap string pyval) (w : world)
  (order cases : list (gmap string pyval)).

Lemma run_case_world_any cost case w :
  snd (run_case cost case w) = w \/
  exists la lo, shares_location la lo case /\
                snd (run_case cost case w) = snd (solar_ac_cached la lo w).
Proof.
  destruct (case !! "lat") as [la|] eqn:Hla;
    [destruct (case !! "long") as [lo|] eqn:Hlo|].
  - destruct (run_case_world cost case w la lo Hla Hlo) as [Hw|Hw]; [left; exact Hw|].
    right. exists la, lo. split; [split; assumption|exact Hw].
  - left. rewrite run_case_unfold.
    destruct (validate_case_inputs case) as [msg|e]; [|reflexivity].
    destruct (String.eqb msg ""); [|reflexivity].
    unfold run_case_body, bind, lift, dict_item. rewrite Hla, Hlo. reflexivity.
  - left. rewrite run_case_unfold.
    destruct (validate_case_inputs case) as [msg|e]; [|reflexivity].
    destruct (String.eqb msg ""); [|reflexivity].
    unfold run_case_body, bind, lift, dict_item. rewrite Hla. reflexivity.
Qed.

(** An invariant of the cache lookups that does not look at the worker
    starts holds along a whole run. *)
Lemma run_futures_invariant (P : world -> Prop) :
  (forall w case, P w -> P (World _ (lru w) (events w ++ [EvRunCase case])%list)) ->
  (forall la lo w, P w -> P (snd (solar_ac_cached la lo w))) ->
  forall cost order w, P w -> P (snd (run_futures cost order w)).
Proof.
  intros Hev Hcache cost order.
  induction order as [|case rest IH]; intros w HP; simpl; [exact HP|].
  assert (Hw : P (snd (worker cost case w))).
  { unfold worker.
    destruct (run_case_world_any cost case
                (World _ (lru w) (events w ++ [EvRunCase case])%list))
      as [->|(la & lo & _ & ->)]; [apply Hev|apply Hcache, Hev]; exact HP. }
  destruct (worker cost case w) as [r w1]. simpl in Hw.
  specialize (IH w1 Hw). destruct (run_futures cost rest w1) as [rs w2]. exact IH.
Qed.

(** The world a script leaves is the one it started from or the one of
    its thread pool run. *)
Lemma script_world cfg picks w :
  snd (script cfg picks w) = w \/
  exists cases, build_cases cfg = inr cases /\ 0 < max_conc cfg /\
    snd (script cfg picks w)
    = snd (run_futures (cost_inputs cfg) (as_completed picks cases) w).
Proof.
  unfold script. destruct (build_cases cfg) as [o|cases]; [left; reflexivity|].
  unfold run_threads, ThreadPoolExecutor.
  destruct (Z.leb_spec (max_conc cfg) 0); [left; reflexivity|].
  right. exists cases. split; [reflexivity|]. split; [lia|].
  destruct (run_futures _ _ w) as [futs w1].
  destruct (collect_results futs); reflexivity.
Qed.

Lemma lru_take_length {V} la lo (l : list (pyval * pyval * V)) entry rest :
  lru_take la lo l = Some (entry, rest) -> length l = S (length rest).
Proof.
  revert entry rest. induction l as [|x l IH]; intros entry rest; simpl; [discriminate|].
  destruct (key_eqb la lo x).
  - intros Heq. inversion Heq; subst. reflexivity.
  - destruct (lru_take la lo l) as [[found rest']|]; [|discriminate].
    intros Heq. inversion Heq; subst. simpl. f_equal. eapply IH. reflexivity.
Qed.

Lemma solar_ac_cached_size la lo w :
  (length (lru w) <= lru_maxsize)%nat ->
  (length (lru (snd (solar_ac_cached la lo w))) <= lru_maxsize)%nat.
Proof.
  intros Hsize. unfold solar_ac_cached.
  destruct (lru_take la lo (lru w)) as [[entry rest]|] eqn:Htake; simpl.
  - apply lru_take_length in Htake. lia.
  - destruct (get_solar_ac_dataframe la lo); simpl; [|exact Hsize].
    rewrite length_take. unfold lru_maxsize. lia.
Qed.

(** X14: the cache never holds more than 64 profiles: if it does not
    before a run, it does not after it, whatever the locations of the
    cases, the completion order and the way the script ends. *)
Theorem X14_cache_stays_within_maxsize cfg picks cost order w :
  (length (lru w) <= lru_maxsize)%nat ->
  (length (lru (snd (run_futures cost order w))) <= lru_maxsize)%nat /\
  (length (lru (snd (script cfg picks w))) <= lru_maxsize)%nat.
Proof.
  intros Hsize.
  assert (Hrun : forall cost' order',
            (length (lru (snd (run_futures cost' order' w))) <= lru_maxsize)%nat).
  { intros cost' order'.
    apply (run_futures_invariant (fun w0 => (length (lru w0) <= lru_maxsize)%nat));
      [intros w0 case Hw0; exact Hw0
      |intros la lo w0; apply solar_ac_cached_size|exact Hsize]. }
  split; [apply Hrun|].
  destruct (script_world cfg picks w) as [->|(cases & _ & _ & ->)];
    [exact Hsize|apply Hrun].
Qed.






End Worlds.

(** ** Completion order and results *)

Section Schedules.
Context `{Collaborators}.

Implicit Types (cfg : config) (case : gmap string pyval) (w : world)
  (order cases results : list (gmap string pyval)).

(** With a cache that agrees with the fetch, a lookup answers what the
    fetch answers, and the cache still agrees. *)
Lemma solar_ac_cached_transparent la lo w :
  cache_agrees la lo w ->
  fst (solar_ac_cached la lo w) = get_solar_ac_dataframe la lo /\
  cache_agrees la lo (snd (solar_ac_cached la lo w)).
Proof.
  intros Hagree. unfold solar_ac_cached.
  destruct (lru_take la lo (lru w)) as [[entry rest]|] eqn:Htake.
  - assert (Hv : get_solar_ac_dataframe la lo = Ok entry.2)
      by (apply Hagree; exists entry, rest; auto).
    split; [symmetry; exact Hv|].
    intros v (entry' & rest' & Ht & <-). simpl in Ht.
    rewrite (lru_take_key la lo _ _ _ Htake) in Ht. inversion Ht; subst. exact Hv.
  - destruct (get_solar_ac_dataframe la lo) as [df|e] eqn:Hfetch;
      (split; [reflexivity|]); intros v (entry' & rest' & Ht & <-); simpl in Ht.
    + unfold key_eqb in Ht. simpl in Ht. rewrite !py_eqb_refl in Ht. simpl in Ht.
      inversion Ht; subst. exact Hfetch.
    + congruence.
Qed.

Lemma run_case_body_result cost case w1 w2 la lo :
  shares_location la lo case ->
  fst (solar_ac_cached la lo w1) = fst (solar_ac_cached la lo w2) ->
  fst (run_case_body cost case w1) = fst (run_case_body cost case w2).
Proof.
  intros [Hla Hlo] Hsame. unfold run_case_body, bind, lift, ret, dict_item.
  rewrite Hla, Hlo.
  destruct (solar_ac_cached la lo w1) as [r1 w1'].
  destruct (solar_ac_cached la lo w2) as [r2 w2']. simpl in Hsame. subst r2.
  destruct r1 as [df|e]; [|reflexivity]. simpl.
  repeat match goal with
         | |- context [match ?x with _ => _ end] => destruct x; simpl; try reflexivity
         end.
Qed.

(** The row of a case does not depend on the world it is evaluated in, as
    long as the cache agrees with the fetch for its location. *)
Lemma run_case_result cost case w1 w2 la lo :
  shares_location la lo case ->
  cache_agrees la lo w1 -> cache_agrees la lo w2 ->
  fst (run_case cost case w1) = fst (run_case cost case w2).
Proof.
  intros Hloc Ha1 Ha2. rewrite !run_case_unfold.
  destruct (validate_case_inputs case) as [msg|e]; [|reflexivity].
  destruct (String.eqb msg ""); [|reflexivity].
  pose proof (run_case_body_result cost case w1 w2 la lo Hloc) as Hbody.
  destruct (solar_ac_cached_transparent la lo w1 Ha1) as [Hf1 _].
  destruct (solar_ac_cached_transparent la lo w2 Ha2) as [Hf2 _].
  specialize (Hbody (eq_trans Hf1 (eq_sym Hf2))).
  destruct (run_case_body cost case w1) as [[r1|e1] w1'];
    destruct (run_case_body cost case w2) as [[r2|e2] w2'];
    simpl in Hbody; inversion Hbody; reflexivity.
Qed.

Lemma run_futures_results cost order w w0 la lo :
  Forall (shares_location la lo) order ->
  cache_agrees la lo w -> cache_agrees la lo w0 ->
  fst (run_futures cost order w) = map (fun case => fst (run_case cost case w0)) order.
Proof.
  intros Hloc. revert w. induction Hloc as [|case rest Hcase _ IH];
    intros w Ha Ha0; simpl; [reflexivity|].
  set (w' := World _ (lru w) (events w ++ [EvRunCase case])%list).
  assert (Ha' : cache_agrees la lo w') by exact Ha.
  assert (Hnext : cache_agrees la lo (snd (worker cost case w))).
  { unfold worker. fold w'.
    destruct Hcase as [Hla Hlo].
    destruct (run_case_world cost case w' la lo Hla Hlo) as [->| ->];
      [exact Ha'|apply solar_ac_cached_transparent; exact Ha']. }
  assert (Hrow : fst (worker cost case w) = fst (run_case cost case w0))
    by (apply (run_case_result cost case w' w0 la lo); assumption).
  destruct (worker cost case w) as [r w1]. simpl in Hnext, Hrow. subst r.
  specialize (IH w1 Hnext Ha0).
  destruct (run_futures cost rest w1) as [rs w2]. simpl in *. rewrite IH. reflexivity.
Qed.

Lemma make_case_location cfg s b g :
  shares_location (VFloat (lat cfg)) (VFloat (lon cfg)) (make_case cfg s b g).
Proof. unfold shares_location, make_case. split; by simplify_map_eq. Qed.

Lemma build_cases_location cfg cases :
  build_cases cfg = inr cases ->
  Forall (shares_location (VFloat (lat cfg)) (VFloat (lon cfg))) cases.
Proof.
  intros Hb. apply build_cases_inr in Hb.
  destruct Hb as (_ & sv & bv & gv & _ & _ & _ & _ & _ & _ & ->).
  apply List.Forall_forall. intros case Hin. apply in_map_iff in Hin.
  destruct Hin as ([[s b] g] & <- & _). apply make_case_location.
Qed.

(** The table of a run, row by row. *)
Lemma run_threads_rows cfg picks cases w results w' :
  build_cases cfg = inr cases ->
  cache_agrees (VFloat (lat cfg)) (VFloat (lon cfg)) w ->
  run_threads cfg picks cases w = (inr results, w') ->
  map Ok results
  = map (fun case => fst (run_case (cost_inputs cfg) case w)) (as_completed picks cases).
Proof.
  intros Hb Ha. unfold run_threads.
  destruct (ThreadPoolExecutor (max_conc cfg)); [|discriminate].
  pose proof (run_futures_results (cost_inputs cfg) (as_completed picks cases) w w
                (VFloat (lat cfg)) (VFloat (lon cfg))) as Hrows.
  destruct (run_futures _ _ w) as [futs w1]. simpl in Hrows.
  destruct (collect_results futs) as [rows|] eqn:Hcol; [|discriminate].
  intros Heq. inversion Heq; subst. apply collect_results_Ok in Hcol.
  rewrite <- Hcol. apply Hrows; [|exact Ha|exact Ha].
  apply (Permutation_Forall (Permutation_sym (as_completed_Permutation picks cases))).
  apply build_cases_location. exact Hb.
Qed.

Lemma map_Ok_Permutation {A} (l1 l2 : list A) :
  Permutation (map (@Ok A) l1) (map (@Ok A) l2) -> Permutation l1 l2.
Proof.
  intros Hp.
  apply (Permutation_map (fun r : result A =>
                            match r with Ok a => Some a | Raise _ => None end)) in Hp.
  rewrite !map_map in Hp. simpl in Hp.
  apply (Permutation_map (fun o : option A => o)) in Hp.
  assert (Hinj : forall l : list A, omap (fun o : option A => o) (map Some l) = l).
  { induction l as [|a l IH]; simpl; [reflexivity|]. f_equal. exact IH. }
  rewrite <- (Hinj l1), <- (Hinj l2).
  change (map ?f ?l) with (f <$> l) in Hp. rewrite !list_fmap_id in Hp.
  change (map (fun x : A => Some x) ?l) with (map Some l) in Hp.
  rewrite Hp. reflexivity.
Qed.

Lemma run_threads_rows_Forall2 cfg picks cases w results w' :
  build_cases cfg = inr cases ->
  cache_agrees (VFloat (lat cfg)) (VFloat (lon cfg)) w ->
  run_threads cfg picks cases w = (inr results, w') ->
  Forall2 (fun case row => fst (run_case (cost_inputs cfg) case w) = Ok row)
          (as_completed picks cases) results.
Proof.
  intros Hb Ha Hr.
  pose proof (run_threads_rows cfg picks cases w results w' Hb Ha Hr) as Hrows.
  clear Hr. revert Hrows. generalize (as_completed picks cases).
  induction results as [|row rest IH]; intros [|case order] Heq;
    simpl in Heq; inversion Heq; constructor; auto.
Qed.

Lemma run_threads_Permutation cfg cases w picks picks' results results' w1 w1' :
  build_cases cfg = inr cases ->
  cache_agrees (VFloat (lat cfg)) (VFloat (lon cfg)) w ->
  run_threads cfg picks cases w = (inr results, w1) ->
  run_threads cfg picks' cases w = (inr results', w1') ->
  Permutation results results'.
Proof.
  intros Hb Ha Hr Hr'.
  pose proof (run_threads_rows cfg picks cases w results w1 Hb Ha Hr) as Hrows.
  pose proof (run_threads_rows cfg picks' cases w results' w1' Hb Ha Hr') as Hrows'.
  apply map_Ok_Permutation. rewrite Hrows, Hrows'.
  apply Permutation_map.
  eapply Permutation_trans; [apply as_completed_Permutation|].
  symmetry. apply as_completed_Permutation.
Qed.

(** X16: when the cache agrees with the fetch for the location of the
    sweep (an empty cache does), the row of each case is the one it would
    get if it were evaluated first, so that the tables of two completion
    orders hold the same rows, each as many times: they are permutations
    of each other. *)
Theorem X16_tables_of_two_schedules_are_permutations
    cfg cases w picks picks' results results' w1 w1' :
  build_cases cfg = inr cases ->
  cache_agrees (VFloat (lat cfg)) (VFloat (lon cfg)) w ->
  run_threads cfg picks cases w = (inr results, w1) ->
  run_threads cfg picks' cases w = (inr results', w1') ->
  Forall2 (fun case row => fst (run_case (cost_inputs cfg) case w) = Ok row)
          (as_completed picks cases) results /\
  Permutation results results'.
Proof.
  intros Hb Ha Hr Hr'. split.
  - eapply run_threads_rows_Forall2; eassumption.
  - eapply run_threads_Permutation; eassumption.
Qed.

Lemma build_cases_validate cfg cases :
  build_cases cfg = inr cases ->
  Forall (fun case => exists msg, validate_case_inputs case = Ok msg) cases.
Proof.
  intros Hb. apply build_cases_inr in Hb.
  destruct Hb as (_ & sv & bv & gv & _ & _ & _ & _ & _ & _ & ->).
  apply List.Forall_forall. intros case Hin. apply in_map_iff in Hin.
  destruct Hin as ([[s b] g] & <- & _). apply validate_make_case.
Qed.

Lemma build_cases_inl cfg o :
  build_cases cfg = inl o -> exists message, o = Stopped message.
Proof.
  unfold build_cases.
  destruct (validation_errors cfg) as [|err errs] eqn:Herrs.
  - apply validation_errors_nil in Herrs. destruct Herrs as (_ & Hs & Hb & Hg).
    destruct (py_range_positive_step (solar_start cfg) (solar_stop cfg) _ Hs) as [sv ->].
    destruct (py_range_positive_step (bess_start cfg) (bess_stop cfg) _ Hb) as [bv ->].
    destruct (py_range_positive_step (gen_start cfg) (gen_stop cfg) _ Hg) as [gv ->].
    destruct (_ || _); intros Heq; inversion Heq; eauto.
  - intros Heq; inversion Heq; eauto.
Qed.

Lemma run_threads_inr_max_conc cfg picks cases w results w' :
  run_threads cfg picks cases w = (inr results, w') -> 0 < max_conc cfg.
Proof.
  unfold run_threads, ThreadPoolExecutor.
  destruct (Z.leb_spec (max_conc cfg) 0); [discriminate|lia].
Qed.

Lemma script_Rendered cfg picks w n best raw pareto w1 :
  script cfg picks w = (Rendered n best raw pareto, w1) ->
  exists cases results,
    build_cases cfg = inr cases /\
    run_threads cfg picks cases w = (inr results, w1) /\
    report cfg results = Rendered n best raw pareto.
Proof.
  unfold script. destruct (build_cases cfg) as [o|cases] eqn:Hb.
  - intros Heq. inversion Heq; subst.
    destruct (build_cases_inl cfg _ Hb) as [message Hm]. discriminate Hm.
  - destruct (run_threads cfg picks cases w) as [[o|results] w'] eqn:Hr.
    + intros Heq. inversion Heq; subst. unfold run_threads in Hr.
      destruct (ThreadPoolExecutor (max_conc cfg)); [|inversion Hr].
      destruct (run_futures _ _ w) as [futs w2].
      destruct (collect_results futs); inversion Hr.
    + intros Heq. inversion Heq; subst. eauto.
Qed.

Lemma report_count cfg results n best raw pareto :
  report cfg results = Rendered n best raw pareto -> n = length results.
Proof.
  unfold report.
  destruct (List.filter _ (raw_table (now cfg) results)) as [|first others];
    [discriminate|].
  destruct (idxmin "lcoe" (first :: others)) as [best_idx|]; [|discriminate].
  destruct (loc best_idx (first :: others)) as [best_row|]; [|discriminate].
  intros Heq. inversion Heq. rewrite raw_table_imap. apply length_imap.
Qed.

(** The least cost of a table does not depend on the order of its rows. *)
Lemma selects_first_minimum_cost results results' now_ best best' :
  Permutation results results' ->
  selects_first_minimum results now_ best ->
  selects_first_minimum results' now_ best' ->
  exists c c', cell_number best "lcoe" = Some c /\
               cell_number best' "lcoe" = Some c' /\ (c == c')%Q.
Proof.
  intros Hperm (i & row & c & Hi & -> & Hs & Hc & Hmin)
               (i' & row' & c' & Hi' & -> & Hs' & Hc' & Hmin').
  exists c, c'. rewrite !with_columns_lcoe.
  split; [exact Hc|]. split; [exact Hc'|].
  assert (Hin : In row' results).
  { apply (Permutation_in _ (Permutation_sym Hperm)).
    apply list_elem_of_In. eapply list_elem_of_lookup_2. exact Hi'. }
  assert (Hin' : In row results').
  { apply (Permutation_in _ Hperm).
    apply list_elem_of_In. eapply list_elem_of_lookup_2. exact Hi. }
  apply list_elem_of_In, list_elem_of_lookup in Hin. destruct Hin as [j Hj].
  apply list_elem_of_In, list_elem_of_lookup in Hin'. destruct Hin' as [j' Hj'].
  destruct (Hmin j row' c' Hj Hs' Hc') as [Hle _].
  destruct (Hmin' j' row c Hj' Hs Hc) as [Hle' _].
  apply Qle_antisym; assumption.
Qed.

(** X17: the best cost does not depend on the completion order: when the
    cache agrees with the fetch and the script renders for one order, it
    renders for every other order, with the same row count and a best row
    of the same levelized cost. *)
Theorem X17_best_cost_is_schedule_independent
    cfg w picks picks' n best raw pareto w1 :
  cache_agrees (VFloat (lat cfg)) (VFloat (lon cfg)) w ->
  script cfg picks w = (Rendered n best raw pareto, w1) ->
  exists best' raw' pareto' w1' c c',
    script cfg picks' w = (Rendered n best' raw' pareto', w1') /\
    cell_number best "lcoe" = Some c /\
    cell_number best' "lcoe" = Some c' /\ (c == c')%Q.
Proof.
  intros Ha Hscript.
  destruct (script_Rendered _ _ _ _ _ _ _ _ Hscript) as (cases & results & Hb & Hr & Hrep).
  pose proof (run_threads_inr_max_conc _ _ _ _ _ _ Hr) as Hconc.
  destruct (run_threads_returns cfg picks' cases w Hconc (build_cases_validate _ _ Hb))
    as (results' & w1' & Hr').
  pose proof (run_threads_Permutation cfg cases w picks picks' results results'
                w1 w1' Hb Ha Hr Hr') as Hperm.
  pose proof (report_best cfg results n best raw pareto Hrep) as Hbest.
  destruct Hbest as (i & row & c & Hi & Hbest_eq & Hs & Hc & Hmin).
  assert (Hin' : In row results').
  { apply (Permutation_in _ Hperm).
    apply list_elem_of_In. eapply list_elem_of_lookup_2. exact Hi. }
  apply list_elem_of_In, list_elem_of_lookup in Hin'. destruct Hin' as [j' Hj'].
  destruct (report_renders cfg results' j' row c Hj' Hs Hc)
    as (n' & best' & raw' & pareto' & Hrep').
  assert (Hn : n' = n).
  { rewrite (report_count _ _ _ _ _ _ Hrep), (report_count _ _ _ _ _ _ Hrep').
    symmetry. apply Permutation_length. exact Hperm. }
  subst n'.
  destruct (selects_first_minimum_cost results results' (now cfg) best best' Hperm)
    as (c0 & c0' & Hc0 & Hc0' & Heq);
    [exists i, row, c; auto|apply (report_best cfg results' n best' raw' pareto' Hrep')|].
  exists best', raw', pareto', w1', c0, c0'.
  split; [|auto].
  rewrite (script_reports cfg picks' cases w results' w1' Hb Hr'). rewrite Hrep'.
  reflexivity.
Qed.

(** A table of a run is rendered or reported as failed. *)
Lemma report_of_run cfg picks cases w results w' :
  run_threads cfg picks cases w = (inr results, w') ->
  report cfg results = Stopped "All cases failed" \/
  exists n best raw pareto, report cfg results = Rendered n best raw pareto.
Proof.
  intros Hr. apply run_threads_table in Hr.
  destruct (existsb is_success results) eqn:Hex.
  - right. apply existsb_exists in Hex. destruct Hex as (row & Hin & Hs).
    apply list_elem_of_In, list_elem_of_lookup in Hin. destruct Hin as [j Hj].
    destruct (Forall2_lookup_r _ _ _ _ _ Hr Hj) as (case & _ & Hev).
    destruct (evaluates_to_success_cost _ _ _ Hev (proj1 (is_success_status row) Hs))
      as [c Hc].
    exact (report_renders cfg results j row c Hj Hs Hc).
  - left. apply report_no_success. intros row Hin Hst.
    apply is_success_status in Hst.
    assert (Htrue : existsb is_success results = true)
      by (apply existsb_exists; eauto).
    congruence.
Qed.

(** X18: the only exception the script can end with is the [ValueError]
    of the thread pool constructor, for a [max_conc] that is not positive:
    with a positive [max_conc] it stops on its inputs, reports that all
    cases failed, or renders. *)
Theorem X18_only_the_pool_constructor_raises cfg picks w e :
  fst (script cfg picks w) = Uncaught e ->
  e = ValueError "max_workers must be greater than 0" /\ max_conc cfg <= 0.
Proof.
  unfold script. destruct (build_cases cfg) as [o|cases] eqn:Hb; simpl.
  - intros ->. destruct (build_cases_inl cfg _ Hb) as [message Hm]. discriminate Hm.
  - destruct (Z.leb_spec (max_conc cfg) 0) as [Hle|Hgt].
    + unfold run_threads, ThreadPoolExecutor.
      destruct (Z.leb_spec (max_conc cfg) 0); [|lia].
      simpl. intros Heq. inversion Heq. split; [reflexivity|assumption].
    + destruct (run_threads_returns cfg picks cases w Hgt (build_cases_validate _ _ Hb))
        as (results & w' & Hr).
      rewrite Hr. simpl. intros Hrep.
      destruct (report_of_run cfg picks cases w results w' Hr)
        as [Hstop|(n & best & raw & pareto & Hrend)]; congruence.
Qed.

Lemma except_status_not_success e : except_status e <> "success".
Proof.
  unfold except_status.
  destruct e; try (intros Heq; inversion Heq; fail).
  destruct (mentions_zero_energy _); intros Heq; inversion Heq.
Qed.

Lemma filter_length_Permutation {A} (f : A -> bool) (l l' : list A) :
  Permutation l l' -> length (List.filter f l) = length (List.filter f l').
Proof.
  induction 1 as [|x l l' _ IH|x y l|l l' l'' _ IH1 _ IH2]; simpl.
  - reflexivity.
  - destruct (f x); simpl; congruence.
  - destruct (f x), (f y); reflexivity.
  - congruence.
Qed.

Section FailingFetch.
Variables (la lo : pyval) (e : pyexn).
Hypothesis fetch_raises : get_solar_ac_dataframe la lo = Raise e.

(** One worker while the fetch fails: an error row, one more call of the
    fetch if the validation accepted the case, and still nothing cached. *)
Lemma worker_fetch_raises cost case w :
  shares_location la lo case ->
  (exists msg, validate_case_inputs case = Ok msg) ->
  (forall v, ~ cached la lo w v) ->
  exists row w1,
    worker cost case w = (Ok row, w1) /\
    row !! "status" <> Some (VStr "success") /\
    (forall v, ~ cached la lo w1 v) /\
    fetch_count (events w1)
    = (fetch_count (events w) + if accepted case then 1 else 0)%nat.
Proof.
  intros [Hla Hlo] [msg Hval] Hmiss.
  assert (Htake : lru_take la lo (lru w) = None).
  { destruct (lru_take la lo (lru w)) as [[entry rest]|] eqn:Ht; [|reflexivity].
    destruct (Hmiss entry.2). exists entry, rest. auto. }
  unfold worker, accepted. rewrite run_case_unfold, Hval.
  destruct (String.eqb msg "") eqn:Hmsg.
  - unfold run_case_body, bind, lift, dict_item. rewrite Hla, Hlo.
    unfold solar_ac_cached. simpl. rewrite Htake, fetch_raises. simpl.
    eexists _, _. split; [reflexivity|].
    split; [|split].
    + destruct (error_row_lookup case (except_status e)) as (-> & _).
      intros Heq. inversion Heq as [Hst]. exact (except_status_not_success e Hst).
    + intros v (entry & rest & Ht & _). simpl in Ht. congruence.
    + simpl. rewrite !fetch_count_app. simpl. lia.
  - eexists _, _. split; [reflexivity|].
    split; [|split].
    + destruct (error_row_lookup case ("error: " +:+ msg)) as (-> & _).
      intros Heq. inversion Heq.
    + intros v (entry & rest & Ht & _). simpl in Ht. congruence.
    + simpl. rewrite fetch_count_app. simpl. lia.
Qed.

Lemma run_futures_fetch_raises cost order w :
  Forall (shares_location la lo) order ->
  Forall (fun case => exists msg, validate_case_inputs case = Ok msg) order ->
  (forall v, ~ cached la lo w v) ->
  exists rows w',
    run_futures cost order w = (map Ok rows, w') /\
    (forall row, In row rows -> row !! "status" <> Some (VStr "success")) /\
    fetch_count (events w')
    = (fetch_count (events w) + length (List.filter accepted order))%nat.
Proof.
  intros Hloc. revert w. induction Hloc as [|case rest Hcase _ IH];
    intros w Hval Hmiss; simpl.
  - exists [], w. split; [reflexivity|]. split; [intros row []|lia].
  - inversion Hval as [|? ? Hv Hvs]; subst.
    destruct (worker_fetch_raises cost case w Hcase Hv Hmiss)
      as (row & w1 & -> & Hst & Hmiss1 & Hcount).
    destruct (IH w1 Hvs Hmiss1) as (rows & w' & -> & Hsts & Hcount').
    exists (row :: rows), w'. split; [reflexivity|]. split.
    + intros r [<-|Hin]; [exact Hst|apply Hsts, Hin].
    + rewrite Hcount', Hcount. destruct (accepted case); simpl; lia.
Qed.

End FailingFetch.

Lemma collect_results_map_Ok {A} (rows : list A) :
  collect_results (map Ok rows) = Ok rows.
Proof. induction rows as [|r rows IH]; simpl; [reflexivity|]. rewrite IH. reflexivity. Qed.

(** X19: an exception of the profile fetch is not cached: when the fetch
    raises for the location of the sweep and its profile is not in the
    cache, every case that passes the validation calls the fetch again,
    every case gets an error row, and the script stops with [All cases
    failed]. *)
Theorem X19_failing_fetch_fails_every_case cfg picks cases w e :
  build_cases cfg = inr cases ->
  0 < max_conc cfg ->
  get_solar_ac_dataframe (VFloat (lat cfg)) (VFloat (lon cfg)) = Raise e ->
  (forall v, ~ cached (VFloat (lat cfg)) (VFloat (lon cfg)) w v) ->
  fst (script cfg picks w) = Stopped "All cases failed" /\
  fetch_count (events (snd (script cfg picks w)))
  = (fetch_count (events w) + length (List.filter accepted cases))%nat.
Proof.
  intros Hb Hconc Hfetch Hmiss.
  pose proof (as_completed_Permutation picks cases) as Hperm.
  destruct (run_futures_fetch_raises _ _ e Hfetch (cost_inputs cfg)
              (as_completed picks cases) w) as (rows & w' & Hrun & Hst & Hcount).
  - apply (Permutation_Forall (Permutation_sym Hperm)), (build_cases_location cfg), Hb.
  - apply (Permutation_Forall (Permutation_sym Hperm)), (build_cases_validate cfg), Hb.
  - exact Hmiss.
  - unfold script. rewrite Hb. unfold run_threads, ThreadPoolExecutor.
    destruct (Z.leb_spec (max_conc cfg) 0); [lia|].
    rewrite Hrun, collect_results_map_Ok. simpl.
    split; [apply report_no_success; exact Hst|].
    rewrite Hcount. f_equal. apply filter_length_Permutation. exact Hperm.
Qed.

End Schedules.

(** ** The replacement policy of the cache *)

Section CachePolicy.
Context `{Collaborators}.

Implicit Types (w : world) (la lo : pyval) (l : list (pyval * pyval * SolarDF)).

Lemma lru_position_take la lo l p :
  lru_position la lo l = Some p -> exists entry rest, lru_take la lo l = Some (entry, rest).
Proof.
  revert p. induction l as [|x l IH]; intros p; simpl; [discriminate|].
  destruct (key_eqb la lo x); [eauto|].
  destruct (lru_position la lo l) as [p0|]; [|discriminate].
  destruct (IH p0 eq_refl) as (entry & rest & ->). eauto.
Qed.

(** Taking an entry out of the cache does not push another key back. *)
Lemma lru_take_position la lo la' lo' l p entry rest :
  lru_position la lo l = Some p ->
  lru_take la' lo' l = Some (entry, rest) ->
  key_eqb la lo entry = true \/
  exists p', lru_position la lo rest = Some p' /\ (p' <= p)%nat.
Proof.
  revert p entry rest. induction l as [|x l IH]; intros p entry rest; simpl;
    [discriminate|].
  destruct (key_eqb la' lo' x) eqn:Hk'.
  - intros Hp Heq. inversion Heq; subst.
    destruct (key_eqb la lo entry) eqn:Hk; [left; reflexivity|].
    right. destruct (lru_position la lo rest) as [p0|]; [|discriminate].
    inversion Hp; subst. exists p0. split; [reflexivity|lia].
  - destruct (lru_take la' lo' l) as [[found rest']|] eqn:Ht; [|discriminate].
    intros Hp Heq. inversion Heq; subst. simpl.
    destruct (key_eqb la lo x) eqn:Hk.
    + right. exists O. split; [reflexivity|lia].
    + destruct (lru_position la lo l) as [p0|]; [|discriminate].
      inversion Hp; subst.
      destruct (IH p0 entry rest' eq_refl eq_refl) as [Hm|(p' & -> & Hle)];
        [left; exact Hm|].
      right. exists (S p'). split; [reflexivity|lia].
Qed.

Lemma lru_position_firstn la lo l p n :
  lru_position la lo l = Some p -> (p < n)%nat ->
  lru_position la lo (take n l) = Some p.
Proof.
  revert p n. induction l as [|x l IH]; intros p n; simpl; [discriminate|].
  intros Hp Hn. destruct n as [|n]; [lia|]. simpl.
  destruct (key_eqb la lo x); [exact Hp|].
  destruct (lru_position la lo l) as [p0|]; [|discriminate].
  inversion Hp; subst. rewrite (IH p0 n eq_refl); [reflexivity|lia].
Qed.

(** One lookup, of any location, moves a cached key back by one rank at
    most, and keeps it as long as its rank is below 63. *)
Lemma solar_ac_cached_position la lo la' lo' w p :
  lru_position la lo (lru w) = Some p -> (p < 63)%nat ->
  exists p', lru_position la lo (lru (snd (solar_ac_cached la' lo' w))) = Some p' /\
             (p' <= S p)%nat.
Proof.
  intros Hp Hlt. unfold solar_ac_cached.
  destruct (lru_take la' lo' (lru w)) as [[entry rest]|] eqn:Ht; simpl.
  - destruct (lru_take_position la lo la' lo' _ p entry rest Hp Ht)
      as [->|(p' & Hp' & Hle)]; [exists O; split; [reflexivity|lia]|].
    destruct (key_eqb la lo entry); [exists O; split; [reflexivity|lia]|].
    rewrite Hp'. exists (S p'). split; [reflexivity|lia].
  - destruct (get_solar_ac_dataframe la' lo') as [df|e]; simpl.
    + destruct (key_eqb la lo (la', lo', df)); [exists O; split; [reflexivity|lia]|].
      rewrite (lru_position_firstn la lo (lru w) p 63 Hp Hlt).
      exists (S p). split; [reflexivity|lia].
    + exists p. split; [exact Hp|lia].
Qed.

Lemma lookup_keys_position la lo keys w p :
  lru_position la lo (lru w) = Some p -> (p + length keys <= 63)%nat ->
  exists p', lru_position la lo (lru (lookup_keys keys w)) = Some p'.
Proof.
  revert w p. induction keys as [|[la' lo'] keys IH]; intros w p Hp Hlen; simpl in *.
  - eauto.
  - destruct (solar_ac_cached_position la lo la' lo' w p Hp) as (p' & Hp' & Hle); [lia|].
    apply (IH _ p' Hp'). lia.
Qed.

Lemma solar_ac_cached_front la lo w v w1 :
  solar_ac_cached la lo w = (Ok v, w1) -> lru_position la lo (lru w1) = Some O.
Proof.
  unfold solar_ac_cached.
  destruct (lru_take la lo (lru w)) as [[entry rest]|] eqn:Ht.
  - intros Heq. inversion Heq; subst. simpl.
    rewrite (lru_take_key la lo _ _ _ Ht). reflexivity.
  - destruct (get_solar_ac_dataframe la lo) as [df|e]; intros Heq; inversion Heq; subst.
    simpl. unfold key_eqb. simpl. rewrite !py_eqb_refl. reflexivity.
Qed.

(** X20: least recently used replacement: a profile that has just been
    returned by [solar_ac_cached] is still in the cache after the lookups
    of any 63 locations, hits or misses, so that the next lookup of its own
    location is answered from the cache without a call to the fetch. *)
Theorem X20_recent_profile_survives_63_lookups la lo w v w1 keys :
  solar_ac_cached la lo w = (Ok v, w1) ->
  (length keys <= 63)%nat ->
  exists v' wn,
    solar_ac_cached la lo (lookup_keys keys w1) = (Ok v', wn) /\
    events wn = events (lookup_keys keys w1).
Proof.
  intros Hcall Hlen. apply solar_ac_cached_front in Hcall.
  destruct (lookup_keys_position la lo keys w1 O Hcall) as [p Hp]; [lia|].
  destruct (lru_position_take la lo _ p Hp) as (entry & rest & Ht).
  destruct (solar_ac_cached_hit la lo (lookup_keys keys w1) entry.2)
    as (wn & Hhit & Hev & _); [exists entry, rest; auto|].
  eauto.
Qed.

End CachePolicy.

(** ** How often the profile is fetched *)

Section FetchCount.
Context `{Collaborators}.

Implicit Types (cfg : config) (case : gmap string pyval) (w : world)
  (order cases : list (gmap string pyval)).


Section OneLocation.
Variables (la lo : pyval) (df : SolarDF).
Hypothesis fetch_returns : get_solar_ac_dataframe la lo = Ok df.





End OneLocation.




End FetchCount.

(** * The demo sweep, run again *)

Lemma demo_world_cache_agrees :
  @cache_agrees demo (VFloat (lat demo_config)) (VFloat (lon demo_config)) demo_world.
Proof. intros v (entry & rest & Htake & _). discriminate Htake. Defined.

Lemma X1_witness :
  (solar_stop demo_config_empty <= solar_start demo_config_empty) /\
  build_cases demo_config_empty = inl (Stopped empty_sweep_message).
Proof.
  assert (Hempty : solar_stop demo_config_empty <= solar_start demo_config_empty)
    by discriminate.
  split; [exact Hempty|].
  apply (proj2 (X1_empty_sweep_iff demo_config_empty)).
  split; [repeat split|left; exact Hempty].
Defined.

Lemma X2_witness :
  build_cases demo_config = inr demo_cases /\
  (In demo_case_ok demo_cases <->
   exists s b g,
     demo_case_ok = make_case demo_config s b g /\
     on_grid 0 100 50 s /\ on_grid 0 100 50 b /\ on_grid 25 50 25 g).
Proof.
  split; [reflexivity|].
  exact (X2_cases_are_the_grid demo_config demo_cases demo_case_ok eq_refl).
Defined.

Lemma X3_witness :
  build_cases demo_config = inr demo_cases /\
  StronglySorted case_before demo_cases.
Proof.
  split; [reflexivity|].
  exact (proj1 (X3_cases_in_lexicographic_order demo_config demo_cases eq_refl)).
Defined.

Lemma X4_witness :
  build_cases demo_config = inr demo_cases /\ NoDup demo_cases.
Proof.
  split; [reflexivity|].
  exact (X4_cases_pairwise_distinct demo_config demo_cases eq_refl).
Defined.

Lemma X5_witness :
  @run_case demo tt demo_case_ok demo_world = (Ok demo_row_ok, demo_world_fetched) /\
  dom demo_row_ok = dom demo_case_ok ∪ list_to_set added_keys.
Proof.
  split; [reflexivity|].
  exact (proj2 (proj2 (@X5_row_extends_case demo tt demo_case_ok demo_world
                         demo_row_ok demo_world_fetched eq_refl))).
Defined.

Lemma X6_witness :
  0 < dc_load demo_config /\
  exists field,
    @run_case demo tt (make_case demo_config 0 (-50) 25) demo_world
    = (Ok (error_row (make_case demo_config 0 (-50) 25)
             ("error: invalid: " +:+ field +:+ " < 0")), demo_world) /\
    (0 <= 0 -> -50 < 0 -> field = "bess_max_power_mw").
Proof.
  split; [reflexivity|].
  destruct (proj2 (@X6_negative_capacity_rejected demo demo_config tt 0 (-50) 25
                     demo_world eq_refl)) as (field & Hrun & _ & Hfield & _).
  - right. left. reflexivity.
  - exists field. split; [exact Hrun|exact Hfield].
Defined.

Lemma X7_witness :
  validate_case_inputs demo_case_no_lat = Ok "" /\
  demo_case_no_lat !! "lat" = None /\
  @run_case demo tt demo_case_no_lat demo_world
  = (Ok (error_row demo_case_no_lat "error: 'lat'"), demo_world).
Proof.
  split; [reflexivity|]. split; [reflexivity|].
  exact (proj1 (@X7_missing_location_key demo tt demo_case_no_lat demo_world eq_refl)
               eq_refl).
Defined.

Lemma X8_witness :
  @run_case demo tt demo_case_ok demo_world = (Ok demo_row_ok, demo_world_fetched) /\
  demo_row_ok !! "status" = Some (VStr "success") /\
  exists spec lcoe rp,
    @evaluation_succeeds demo tt demo_case_ok demo_world demo_world_fetched spec lcoe rp /\
    demo_row_ok = success_row demo_case_ok spec lcoe rp.
Proof.
  split; [reflexivity|]. split; [reflexivity|].
  exact (proj2 (proj1 (@X8_success_iff_every_step_returns demo tt demo_case_ok
                         demo_world demo_row_ok demo_world_fetched)
                      (conj eq_refl eq_refl))).
Defined.

Lemma X9_witness :
  0 < max_conc demo_config /\
  In demo_case_text_load [demo_case_ok; demo_case_text_load] /\
  validate_case_inputs demo_case_text_load
  = Raise (TypeError "'<=' not supported between instances of 'str' and 'int'") /\
  exists msg w',
    run_threads demo_config [] [demo_case_ok; demo_case_text_load] demo_world
    = (inl (Uncaught (TypeError msg)), w').
Proof.
  split; [reflexivity|]. split; [right; left; reflexivity|]. split; [reflexivity|].
  exact (proj2 (X9_non_numeric_field_ends_the_run demo_config []
                  [demo_case_ok; demo_case_text_load] demo_case_text_load demo_world
                  _ eq_refl (or_intror (or_introl eq_refl)) eq_refl)).
Defined.

Lemma X10_witness :
  has_substring "zero" (lower "Lifetime energy is ZERO") /\
  has_substring "energy" (lower "Lifetime energy is ZERO") /\
  except_status (ValueError "Lifetime energy is ZERO") = "error: zero energy".
Proof.
  assert (Hzero : has_substring "zero" (lower "Lifetime energy is ZERO"))
    by (exists "lifetime energy is ", ""; reflexivity).
  assert (Henergy : has_substring "energy" (lower "Lifetime energy is ZERO"))
    by (exists "lifetime ", " is zero"; reflexivity).
  split; [exact Hzero|]. split; [exact Henergy|].
  apply (proj2 (X10_zero_energy_status_iff (ValueError "Lifetime energy is ZERO"))).
  right. exists "Lifetime energy is ZERO".
  split; [reflexivity|]. split; [exact Hzero|left; exact Henergy].
Defined.

Lemma X11_witness :
  dc_load demo_config_no_load <= 0 /\
  In "datacenter_load_mw must be > 0" (validation_errors demo_config_no_load) /\
  ~ In "solar_step must be > 0" (validation_errors demo_config_no_load).
Proof.
  destruct (@X11_every_violation_reported demo demo_config_no_load)
    as (Hload & Hsolar & _).
  split; [discriminate|].
  split; [apply Hload; discriminate|].
  intros Hin. apply Hsolar in Hin. exact (Hin eq_refl).
Defined.

Lemma X12_witness :
  @run_case demo tt (make_case demo_config 50 0 25) demo_world
  = (Ok demo_row_ok, demo_world_fetched) /\
  dom (with_columns "12:00" demo_row_ok) = list_to_set cols.
Proof.
  split; [reflexivity|].
  exact (proj1 (@X12_rendered_row_columns demo tt demo_config 50 0 25 demo_world
                  demo_row_ok demo_world_fetched "12:00" eq_refl)).
Defined.

Lemma X13_witness :
  exists n best raw pareto,
    report (with_limit demo_config 3) demo_rows = Rendered n best raw pareto /\
    n = 4%nat /\ length raw = 3%nat.
Proof.
  eexists _, _, _, _. split; [reflexivity|].
  destruct (X13_limit_only_cuts_printed_rows (with_limit demo_config 3) demo_rows
              _ _ _ _ eq_refl) as (Hn & _ & Hlen & _).
  split; [exact Hn|exact Hlen].
Defined.

Lemma X14_witness :
  (length (lru demo_world) <= lru_maxsize)%nat /\
  (length (lru (snd (script demo_config [1%nat] demo_world))) <= lru_maxsize)%nat.
Proof.
  assert (Hsize : (length (lru demo_world) <= lru_maxsize)%nat)
    by (unfold lru_maxsize; simpl; lia).
  split; [exact Hsize|].
  exact (proj2 (@X14_cache_stays_within_maxsize demo demo_config [1%nat] tt []
                  demo_world Hsize)).
Defined.


Lemma X16_witness :
  build_cases demo_config = inr demo_cases /\
  run_threads demo_config [] demo_cases demo_world = (inr (demo_table []), demo_final []) /\
  run_threads demo_config [1%nat] demo_cases demo_world
  = (inr (demo_table [1%nat]), demo_final [1%nat]) /\
  Permutation (demo_table []) (demo_table [1%nat]).
Proof.
  split; [reflexivity|]. split; [reflexivity|]. split; [reflexivity|].
  exact (proj2 (X16_tables_of_two_schedules_are_permutations demo_config demo_cases
                  demo_world [] [1%nat] (demo_table []) (demo_table [1%nat])
                  (demo_final []) (demo_final [1%nat])
                  eq_refl demo_world_cache_agrees eq_refl eq_refl)).
Defined.

Lemma X17_witness :
  exists n best raw pareto w1,
    script demo_config [] demo_world = (Rendered n best raw pareto, w1) /\
    exists best' raw' pareto' w1' c c',
      script demo_config [1%nat] demo_world = (Rendered n best' raw' pareto', w1') /\
      cell_number best "lcoe" = Some c /\
      cell_number best' "lcoe" = Some c' /\ (c == c')%Q.
Proof.
  eexists _, _, _, _, _. split; [reflexivity|].
  exact (X17_best_cost_is_schedule_independent demo_config demo_world [] [1%nat]
           _ _ _ _ _ demo_world_cache_agrees eq_refl).
Defined.

Lemma X18_witness :
  fst (script demo_config_no_worker [] demo_world)
  = Uncaught (ValueError "max_workers must be greater than 0") /\
  max_conc demo_config_no_worker <= 0.
Proof.
  split; [reflexivity|].
  exact (proj2 (X18_only_the_pool_constructor_raises demo_config_no_worker []
                  demo_world _ eq_refl)).
Defined.

Lemma X19_witness :
  build_cases demo_offline_config = inr demo_offline_cases /\
  0 < max_conc demo_offline_config /\
  fst (script demo_offline_config [] demo_offline_world) = Stopped "All cases failed" /\
  fetch_count (events (snd (script demo_offline_config [] demo_offline_world))) = 1%nat.
Proof.
  split; [reflexivity|]. split; [reflexivity|].
  assert (Hmiss : forall v, ~ @cached demo_offline (VFloat (lat demo_offline_config))
                              (VFloat (lon demo_offline_config)) demo_offline_world v).
  { intros v (entry & rest & Htake & _). discriminate Htake. }
  exact (X19_failing_fetch_fails_every_case demo_offline_config [] demo_offline_cases
           demo_offline_world (OtherException "no network") eq_refl eq_refl eq_refl Hmiss).
Defined.

Lemma X20_witness :
  @solar_ac_cached demo (VFloat (31 # 1)) (VFloat (-102 # 1)) demo_world
  = (Ok 8760, demo_world_fetched) /\
  (length demo_other_keys <= 63)%nat /\
  exists v' wn,
    @solar_ac_cached demo (VFloat (31 # 1)) (VFloat (-102 # 1))
      (lookup_keys demo_other_keys demo_world_fetched) = (Ok v', wn) /\
    events wn = events (lookup_keys demo_other_keys demo_world_fetched).
Proof.
  assert (Hlen : (length demo_other_keys <= 63)%nat) by (simpl; lia).
  split; [reflexivity|]. split; [exact Hlen|].
  exact (@X20_recent_profile_survives_63_lookups demo (VFloat (31 # 1))
           (VFloat (-102 # 1)) demo_world 8760 demo_world_fetched demo_other_keys
           eq_refl Hlen).
Defined.

